(** * Precision-RAG: hybrid retrieval, re-ranking, context assembly, ingestion

    A shallow embedding of [backend/app/services/rag_pipeline.py] and
    [backend/app/services/ingestion.py].

    - A LangChain [Document] is a record of its text and its metadata.
    - A Python [dict] is an insertion-ordered association list: assigning to
      a key that is present replaces the value in place, assigning to a new
      key appends an entry.
    - Calls into the external models (retrievers, cross-encoder, chat
      backend) are recorded in a trace, and exceptions are values, so that
      "is not invoked" and "fails" are statements about results.
    - What the libraries do (loading a model or an index, reading a file,
      splitting, scoring) is a parameter of the model; a retriever or the
      cross-encoder, once loaded, is taken to answer.
    - Scores are compared with [<] only, as Python's sort does; the
      ordering results assume that [<] is a strict weak order on the scores
      met, which holds for floats as long as none is NaN.
    - [print] calls and operating-system errors while clearing the index
      directories are not modelled. *)

From Stdlib Require Import List String Ascii Bool Arith ZArith Lia.
From Stdlib Require Import Sorted Permutation.
Import ListNotations.
Local Open Scope string_scope.
Local Open Scope list_scope.

(** ** Documents *)

Record Document : Type := mkDocument {
  page_content : string;
  metadata : list (string * string)
}.

Definition Document_eq_dec (d1 d2 : Document) : {d1 = d2} + {d1 <> d2}.
Proof.
  decide equality.
  - apply (list_eq_dec (fun p q : string * string =>
             ltac:(decide equality; apply string_dec))).
  - apply string_dec.
Defined.

(** Two chunks carry the same text (Python's [==] on [page_content]). *)
Definition same_text (d1 d2 : Document) : bool :=
  String.eqb (page_content d1) (page_content d2).

(** ** Python dictionaries keyed by strings

    Insertion-ordered; [d[k] = v] keeps the position of an existing key and
    overwrites its value. *)

Module PyDict.
Section Dict.
Context {V : Type}.

Definition t := list (string * V).

Definition empty : t := [].

Fixpoint setitem (key : string) (v : V) (d : t) : t :=
match d with
| [] => [(key, v)]
| (key', v') :: d' =>
    if String.eqb key' key then (key', v) :: d'
    else (key', v') :: setitem key v d'
end.

Fixpoint get (key : string) (d : t) : option V :=
match d with
| [] => None
| (key', v') :: d' => if String.eqb key' key then Some v' else get key d'
end.

Definition keys (d : t) : list string := map fst d.
Definition values (d : t) : list V := map snd d.
End Dict.
Arguments t : clear implicits.
End PyDict.

(** ** Traces and exceptions *)

Inductive IndexKind : Type := Dense | Sparse.

(** A call into one of the external components. *)
Inductive Event : Type :=
| RetrieverInvoke (index : IndexKind) (query : string)
| CrossEncoderPredict (pairs : list (string * string))
| LLMInvoke (prompt : string).

(** Python exceptions, as far as the pipeline distinguishes them. *)
Inductive PyException : Type :=
| FileNotFoundError (path : string)
| Exception (msg : string).

(** The statement of [run_rag_pipeline] at which an exception was raised. *)
Inductive Stage : Type :=
| LoadEmbeddings
| LoadCrossEncoder
| LoadVectorstore
| LoadBM25
| InvokeLLM.

Inductive Raised : Type := Raise (at_stage : Stage) (exc : PyException).

(** A computation returns a value or raises, and records the external calls
    it made up to that point. *)
Definition M (A : Type) : Type := (Raised + A) * list Event.

Definition ret {A} (a : A) : M A := (inr a, []).
Definition raise {A} (s : Stage) (e : PyException) : M A := (inl (Raise s e), []).
Definition call {A} (ev : Event) (a : A) : M A := (inr a, [ev]).

Definition bind {A B} (m : M A) (k : A -> M B) : M B :=
  match m with
  | (inl r, tr) => (inl r, tr)
  | (inr a, tr) => let (res, tr') := k a in (res, tr ++ tr')
  end.

Notation "x <- m ;; k" := (bind m (fun x => k))
  (at level 61, m at next level, right associativity).

Definition outcome {A} (m : M A) : Raised + A := fst m.
Definition trace {A} (m : M A) : list Event := snd m.

(** ** Retrievers *)

(** A retriever returns its [k] best chunks for a query; [k] is an
    attribute that the pipeline sets after loading. *)
Record Retriever : Type := mkRetriever {
  k : nat;
  get_relevant_documents : nat -> string -> list Document
}.

Definition set_k (n : nat) (r : Retriever) : Retriever :=
  {| k := n; get_relevant_documents := get_relevant_documents r |}.

Definition invoke (r : Retriever) (query : string) : list Document :=
  get_relevant_documents r (k r) query.

Definition invoke_retriever (index : IndexKind) (r : Retriever) (query : string)
  : M (list Document) :=
  call (RetrieverInvoke index query) (invoke r query).

(** ** [_hybrid_search] *)

(** The loop [for doc in all_docs: unique_docs[doc.page_content] = doc]. *)
Definition unique_docs (all_docs : list Document) : PyDict.t Document :=
  fold_left (fun d doc => PyDict.setitem (page_content doc) doc d)
            all_docs PyDict.empty.

Definition _hybrid_search (query : string) (chroma_retriever bm25_retriever : Retriever)
  : M (list Document) :=
  chroma_docs <- invoke_retriever Dense chroma_retriever query ;;
  bm25_docs <- invoke_retriever Sparse bm25_retriever query ;;
  let all_docs := chroma_docs ++ bm25_docs in
  let unique_list := PyDict.values (unique_docs all_docs) in
  ret unique_list.

(** The deduplication as the specification words it: walk the union in
    dense-first order and keep a chunk only if no chunk with the same text
    was kept before. *)
Fixpoint keep_first_occurrence (seen : list string) (l : list Document)
  : list Document :=
  match l with
  | [] => []
  | d :: l' =>
      if existsb (String.eqb (page_content d)) seen
      then keep_first_occurrence seen l'
      else d :: keep_first_occurrence (seen ++ [page_content d]) l'
  end.

(** The last chunk of [l] whose text is [t]. *)
Definition last_with_text (t : string) (l : list Document) : option Document :=
  find (fun d => String.eqb (page_content d) t) (rev l).

(** ** [list.sort(key=..., reverse=...)]

    Python's sort compares keys with [<] only and is stable.  Sorted
    prefixes grow by inserting the next element to the right of every
    element that is not greater; with [reverse=True] CPython reverses the
    list, sorts it in ascending order and reverses the result, which keeps
    elements with equal keys in their original order. *)

Section ListSort.
Context {K A : Type}.
Variable lt : K -> K -> bool.
Variable key : A -> K.

Fixpoint insort_right (x : A) (l : list A) : list A :=
  match l with
  | [] => [x]
  | y :: l' =>
      if lt (key x) (key y) then x :: y :: l'
      else y :: insort_right x l'
  end.

Definition sort_ascending (l : list A) : list A :=
  fold_left (fun sorted x => insort_right x sorted) l [].

Definition list_sort (reverse : bool) (l : list A) : list A :=
  if reverse then rev (sort_ascending (rev l)) else sort_ascending l.

(** Two elements in the order the ascending sort leaves them: keys go
    up, and elements whose keys do not differ stay in the order [E] they
    had in the input. *)
Definition ascending_stable (E : A -> A -> Prop) (p q : A) : Prop :=
  lt (key p) (key q) = true \/ (lt (key q) (key p) = false /\ E p q).

(** The positions [i], [j] of the input [l] in the order the descending
    sort leaves them: keys do not go up, and elements whose keys do not
    differ stay in input order. *)
Definition descending_stable (l : list A) (i j : nat) : Prop :=
  forall x y, nth_error l i = Some x -> nth_error l j = Some y ->
    lt (key x) (key y) = false /\
    (lt (key y) (key x) = false -> i < j).
End ListSort.

(** ** [_rerank_documents] and [_format_docs] *)

Definition newline : string := String "010"%char EmptyString.

(** [_format_docs]: ["\n\n".join(doc.page_content for doc in docs)]. *)
Definition _format_docs (docs : list Document) : string :=
  String.concat (newline ++ newline) (map page_content docs).

Record QueryAndDocs : Type := mkQueryAndDocs {
  query : string;
  documents : list Document
}.

Section Rerank.
Context {score : Type}.
(** [<] on the scores the cross-encoder returns. *)
Variable score_lt : score -> score -> bool.

Record CrossEncoder : Type := mkCrossEncoder {
  predict : list (string * string) -> list score
}.

(** [scored_docs] after the in-place sort: [zip] stops at the shorter of
    its arguments. *)
Definition scored_docs (scores : list score) (docs : list Document)
  : list (score * Document) :=
  list_sort score_lt fst true (combine scores docs).

(** [[[query, doc.page_content] for doc in documents]] *)
Definition query_pairs (query : string) (documents : list Document)
  : list (string * string) :=
  map (fun doc => (query, page_content doc)) documents.

Definition _rerank_documents (query_and_docs : QueryAndDocs)
           (cross_encoder_model : CrossEncoder) : M (list Document) :=
  let query := query query_and_docs in
  let documents := documents query_and_docs in
  match documents with
  | [] => ret []
  | _ :: _ =>
      let pairs := query_pairs query documents in
      scores <- call (CrossEncoderPredict pairs)
                     (predict cross_encoder_model pairs) ;;
      ret (map snd (firstn 3 (scored_docs scores documents)))
  end.
End Rerank.

(** ** The prompt and the chat backend *)

(** [RAG_PROMPT]: the template with its two slots filled. *)
Definition RAG_PROMPT (context question : string) : string :=
  newline ++
  "You are an assistant for question-answering tasks. " ++ newline ++
  "Use the following pieces of retrieved context to answer the question. " ++ newline ++
  "If you don't know the answer, just say that you don't know. " ++ newline ++
  "You must answer *only* based on the context provided." ++ newline ++
  newline ++
  "Context:" ++ newline ++
  context ++ newline ++
  newline ++
  "Question:" ++ newline ++
  question ++ newline ++
  newline ++
  "Answer:" ++ newline.

(** The chat model followed by [StrOutputParser]: a prompt goes in, the
    answer text comes out, or the backend call raises. *)
Record ChatBackend : Type := mkChatBackend {
  complete : string -> PyException + string
}.

Definition invoke_llm (llm : ChatBackend) (prompt : string) : M string :=
  match complete llm prompt with
  | inl e => (inl (Raise InvokeLLM e), [LLMInvoke prompt])
  | inr answer => (inr answer, [LLMInvoke prompt])
  end.

(** ** Files on disk *)

Definition CORPUS_PATH : string := "corpus".
Definition VECTORSTORE_PATH : string := "vectorstore".
Definition BM25_INDEX_PATH : string := "bm25_index/bm25_retriever.pkl".

Record CorpusFile : Type := mkCorpusFile {
  file_name : string;
  file_bytes : string
}.

(** What the three fixed locations hold.  [None] is a path that does not
    exist; a directory or pickle is described by the chunks stored in it. *)
Record Disk : Type := mkDisk {
  corpus : option (list CorpusFile);
  vectorstore : option (list Document);
  bm25_index : option (list Document)
}.

Definition lift {A} (s : Stage) (r : PyException + A) : M A :=
  match r with
  | inl e => raise s e
  | inr a => ret a
  end.

(** An index that is missing or not yet built: no vector-store directory
    or an empty one, or no BM25 pickle. *)
Definition index_not_built (disk : Disk) : Prop :=
  vectorstore disk = None \/ vectorstore disk = Some [] \/
  bm25_index disk = None.

(** ** [run_rag_pipeline] *)

Section Pipeline.
Context {score : Type}.
Variable score_lt : score -> score -> bool.

(** The behaviour of the libraries the pipeline loads its models and
    indexes with. *)
Record Runtime : Type := mkRuntime {
  HuggingFaceEmbeddings_load : PyException + unit;
  CrossEncoder_load : PyException + @CrossEncoder score;
  Chroma_load : option (list Document) -> PyException + Retriever;
  pickle_load : list Document -> PyException + Retriever
}.

(** [with open(BM25_INDEX_PATH, 'rb') as f: pickle.load(f)] *)
Definition load_bm25 (rt : Runtime) (disk : Disk) : M Retriever :=
  match bm25_index disk with
  | None => raise LoadBM25 (FileNotFoundError BM25_INDEX_PATH)
  | Some f => lift LoadBM25 (pickle_load rt f)
  end.

(** A load of an index fails: constructing the vector store raises, the
    BM25 pickle does not exist, or unpickling it raises.  A vector store
    that is missing or empty is not among these unless the constructor
    raises on it. *)
Definition index_load_fails (rt : Runtime) (disk : Disk) : Prop :=
  (exists e, Chroma_load rt (vectorstore disk) = inl e) \/
  bm25_index disk = None \/
  (exists f e, bm25_index disk = Some f /\ pickle_load rt f = inl e).

Definition run_rag_pipeline (rt : Runtime) (disk : Disk)
           (query : string) (llm : ChatBackend) : M string :=
  (* A. load models *)
  embeddings <- lift LoadEmbeddings (HuggingFaceEmbeddings_load rt) ;;
  cross_encoder <- lift LoadCrossEncoder (CrossEncoder_load rt) ;;
  (* B. load indexes from disk *)
  vectorstore <- lift LoadVectorstore (Chroma_load rt (vectorstore disk)) ;;
  let chroma_retriever := set_k 5 vectorstore in
  bm25_retriever <- load_bm25 rt disk ;;
  let bm25_retriever := set_k 5 bm25_retriever in
  (* C, D. build the chain and invoke it *)
  documents <- _hybrid_search query chroma_retriever bm25_retriever ;;
  window <- _rerank_documents score_lt
              (mkQueryAndDocs query documents) cross_encoder ;;
  let context := _format_docs window in
  answer <- invoke_llm llm (RAG_PROMPT context query) ;;
  ret answer.
End Pipeline.

(** ** Ingestion *)

(** [str.startswith] and [str.endswith]. *)
Definition startswith (p s : string) : bool := String.prefix p s.

Definition endswith (suffix s : string) : bool :=
  let n := String.length s in
  let m := String.length suffix in
  Nat.leb m n && String.eqb (String.substring (n - m) m s) suffix.

(** The libraries ingestion calls. *)
Record IngestLibs : Type := mkIngestLibs {
  PyPDFLoader_load : CorpusFile -> PyException + list Document;
  TextLoader_load : CorpusFile -> PyException + list Document;
  split_documents : list Document -> list Document;
  HuggingFaceEmbeddings_init : PyException + unit;
  Chroma_from_documents : list Document -> PyException + unit;
  BM25Retriever_from_texts :
    list string -> list (list (string * string)) -> PyException + unit
}.

(** A step of ingestion: it changes the disk and returns or raises. *)
Definition Ingest (A : Type) : Type := Disk -> (PyException + A) * Disk.

Definition exists_ {A} (path : option A) : bool :=
  match path with Some _ => true | None => false end.

(** [os.makedirs(path, exist_ok=True)] on a directory of chunks. *)
Definition makedirs (dir : option (list Document)) : option (list Document) :=
  match dir with
  | Some content => Some content
  | None => Some []
  end.

Definition clear_indexes (disk : Disk) : Disk :=
  let disk :=
    if exists_ (vectorstore disk)
    then mkDisk (corpus disk) None (bm25_index disk)     (* shutil.rmtree *)
    else disk in
  let disk :=
    if exists_ (bm25_index disk)
    then mkDisk (corpus disk) (vectorstore disk) None    (* os.remove *)
    else disk in
  mkDisk (corpus disk) (makedirs (vectorstore disk)) (bm25_index disk).

(** One iteration of the loop over the files of the corpus directory. *)
Definition load_file (libs : IngestLibs) (all_documents : list Document)
           (file : CorpusFile) : list Document :=
  if startswith "." (file_name file) then all_documents
  else if endswith ".pdf" (file_name file) then
    match PyPDFLoader_load libs file with
    | inr docs => all_documents ++ docs
    | inl _ => all_documents
    end
  else if endswith ".txt" (file_name file) then
    match TextLoader_load libs file with
    | inr docs => all_documents ++ docs
    | inl _ => all_documents
    end
  else all_documents.

Definition load_documents (libs : IngestLibs)
           (corpus_path : option (list CorpusFile)) : list Document :=
  match corpus_path with
  | None => []
  | Some files => fold_left (load_file libs) files []
  end.

Definition create_vectorstore (libs : IngestLibs) (chunks : list Document)
  : Ingest unit :=
  fun disk =>
    match Chroma_from_documents libs chunks with
    | inl e => (inl e, disk)
    | inr _ => (inr tt, mkDisk (corpus disk) (Some chunks) (bm25_index disk))
    end.

(** The whole body is under [try]; a failure is printed and swallowed.
    Building the retriever and writing its pickle are one outcome here: a
    failure leaves no file. *)
Definition create_bm25_index (libs : IngestLibs) (chunks : list Document)
  : Ingest unit :=
  fun disk =>
    let chunk_texts := map page_content chunks in
    let chunk_metadatas := map metadata chunks in
    match BM25Retriever_from_texts libs chunk_texts chunk_metadatas with
    | inl _ => (inr tt, disk)
    | inr _ =>
        let pickled :=
          map (fun tm => mkDocument (fst tm) (snd tm))
              (combine chunk_texts chunk_metadatas) in
        (inr tt, mkDisk (corpus disk) (vectorstore disk) (Some pickled))
    end.

Definition run_ingestion (libs : IngestLibs) : Ingest unit :=
  fun disk =>
    (* 1. clear old indexes first *)
    let disk := clear_indexes disk in
    (* 2. load *)
    let documents := load_documents libs (corpus disk) in
    match documents with
    | [] => (inr tt, disk)
    | _ :: _ =>
        (* 3. split *)
        let chunks := split_documents libs documents in
        match chunks with
        | [] => (inr tt, disk)
        | _ :: _ =>
            (* 4. embedding model *)
            match HuggingFaceEmbeddings_init libs with
            | inl _ => (inr tt, disk)
            | inr _ =>
                (* 5. vector store *)
                match create_vectorstore libs chunks disk with
                | (inl e, disk) => (inl e, disk)
                | (inr _, disk) =>
                    (* 6. BM25 index *)
                    create_bm25_index libs chunks disk
                end
            end
        end
    end.

(** Both indexes cleared and unpopulated: an empty vector-store directory
    and no BM25 pickle. *)
Definition indexes_empty (disk : Disk) : Prop :=
  vectorstore disk = Some [] /\ bm25_index disk = None.

(** The Context Window read against the pool in the specification's
    words: a subsequence keeps the pool's relative order. *)
Fixpoint is_subsequence (window pool : list Document) : bool :=
  match window, pool with
  | [], _ => true
  | _ :: _, [] => false
  | x :: window', y :: pool' =>
      if Document_eq_dec x y then is_subsequence window' pool'
      else is_subsequence window pool'
  end.

(** [window] lists the chunks found at the pool positions [idx]. *)
Definition at_positions (pool : list Document) (idx : list nat)
           (window : list Document) : Prop :=
  Forall2 (fun i d => nth_error pool i = Some d) idx window.

(** ** Sample data *)

Definition chunk_A : Document :=
  mkDocument "Paris is the capital of France"
             [("source", "guide.pdf"); ("page", "0")].

Definition chunk_B : Document :=
  mkDocument "The Eiffel Tower is in Paris"
             [("source", "guide.pdf"); ("page", "1")].

(** The text of [chunk_A] again, from another file. *)
Definition chunk_A' : Document :=
  mkDocument "Paris is the capital of France" [("source", "notes.txt")].

(** A retriever that answers every query with [docs]. *)
Definition fixed_retriever (docs : list Document) : Retriever :=
  mkRetriever 5 (fun _ _ => docs).

(** A cross-encoder that answers every batch with [scores]. *)
Definition fixed_encoder (scores : list Z) : @CrossEncoder Z :=
  mkCrossEncoder (fun _ => scores).

(** Libraries that load every file as one document, split nothing and
    never fail. *)
Definition sample_libs : IngestLibs :=
  mkIngestLibs
    (fun f => inr [mkDocument (file_bytes f) [("source", file_name f)]])
    (fun f => inr [mkDocument (file_bytes f) [("source", file_name f)]])
    (fun docs => docs)
    (inr tt)
    (fun _ => inr tt)
    (fun _ _ => inr tt).

(** A runtime whose loads all succeed; an index answers with the chunks
    stored in it. *)
Definition sample_runtime : @Runtime Z :=
  mkRuntime
    (inr tt)
    (inr (fixed_encoder []))
    (fun dir => inr (fixed_retriever (match dir with Some l => l | None => [] end)))
    (fun f => inr (fixed_retriever f)).

Definition sample_llm : ChatBackend :=
  mkChatBackend (fun _ => inr "I don't know.").

(** Both indexes built over two chunks, and an empty corpus directory. *)
Definition disk_built : Disk :=
  mkDisk (Some []) (Some [chunk_A; chunk_B]) (Some [chunk_A; chunk_B]).

(** The indexes as an ingestion run without documents leaves them. *)
Definition disk_cleared : Disk := mkDisk (Some []) (Some []) None.

(** Two index stores that hold no chunk. *)
Definition disk_no_chunks : Disk := mkDisk (Some []) (Some []) (Some []).

(** ** The HTTP surface ([backend/app/main.py]) *)

Record HTTPException : Type := mkHTTPException {
  status_code : nat;
  detail : string
}.

Module Api.
Record ChatRequest : Type := mkChatRequest {
  query : string;
  llm_choice : string;
  api_key : option string
}.

Record ChatResponse : Type := mkChatResponse {
  answer : string
}.
End Api.

(** Truth value of an optional string: [None] and the empty string are
    false. *)
Definition truthy (s : option string) : bool :=
  match s with
  | Some (String _ _) => true
  | _ => false
  end.

(** [a or b] *)
Definition or_ (a b : option string) : option string :=
  if truthy a then a else b.

(** The chat client [get_llm] constructs. *)
Inductive LLM : Type :=
| ChatGroq (model_name : string) (temperature : Z) (groq_api_key : string)
| ChatOpenAI (model_name : string) (temperature : Z) (api_key : string).

Definition llm_key (llm : LLM) : string :=
  match llm with
  | ChatGroq _ _ key => key
  | ChatOpenAI _ _ key => key
  end.

(** [environ_GROQ_API_KEY] is [os.environ.get("GROQ_API_KEY")]. *)
Definition get_llm (environ_GROQ_API_KEY : option string)
           (choice : string) (api_key : option string) : HTTPException + LLM :=
  if String.eqb choice "groq" then
    let key := or_ api_key environ_GROQ_API_KEY in
    match key with
    | Some (String c s) => inr (ChatGroq "llama-3.1-8b-instant" 0 (String c s))
    | _ => inl (mkHTTPException 400 "GROQ_API_KEY not set.")
    end
  else if String.eqb choice "openai" then
    match api_key with
    | Some (String c s) => inr (ChatOpenAI "gpt-4o-mini" 0 (String c s))
    | _ => inl (mkHTTPException 400 "OpenAI API key is required.")
    end
  else inl (mkHTTPException 400 "Invalid LLM choice.").

Section Server.
Context {score : Type}.
Variable score_lt : score -> score -> bool.

(** What the process runs with: its environment, the libraries, how a
    configured chat client answers, and [str] on the exceptions that the
    handlers format into their messages.  Constructing the chat client is
    taken to succeed. *)
Record Server : Type := mkServer {
  environ_GROQ_API_KEY : option string;
  runtime : @Runtime score;
  chat_backend : LLM -> ChatBackend;
  str_HTTPException : HTTPException -> string;
  str_PyException : PyException -> string
}.

(** [POST /chat].  The handler's [except Exception] also catches the
    [HTTPException] that [get_llm] raises. *)
Definition chat_endpoint (srv : Server) (disk : Disk) (request : Api.ChatRequest)
  : (HTTPException + Api.ChatResponse) * list Event :=
  match get_llm (environ_GROQ_API_KEY srv)
                (Api.llm_choice request) (Api.api_key request) with
  | inl e =>
      (inl (mkHTTPException 500
              ("Internal Server Error: " ++ str_HTTPException srv e)), [])
  | inr llm =>
      match run_rag_pipeline score_lt (runtime srv) disk
                             (Api.query request) (chat_backend srv llm) with
      | (inl (Raise _ e), tr) =>
          (inl (mkHTTPException 500
                  ("Internal Server Error: " ++ str_PyException srv e)), tr)
      | (inr answer, tr) => (inr (Api.mkChatResponse answer), tr)
      end
  end.
End Server.

(** [POST /ingest].  The state is the disk and the text of the running
    [main.py], to which a successful run appends a space so that the
    server reloads; appending is taken to succeed. *)
Definition ingest_documents (libs : IngestLibs)
           (str_PyException : PyException -> string)
           (state : Disk * string)
  : (HTTPException + string) * (Disk * string) :=
  let (disk, main_py) := state in
  match run_ingestion libs disk with
  | (inr _, disk) =>
      (inr "Ingestion complete. Server is restarting with new data.",
       (disk, (main_py ++ " ")%string))
  | (inl e, disk) =>
      (inl (mkHTTPException 500 ("Ingestion failed: " ++ str_PyException e)),
       (disk, main_py))
  end.

(** The chain of [run_rag_pipeline] on its own: search, re-rank, assemble. *)
Definition chain {score : Type} (score_lt : score -> score -> bool)
           (cross_encoder : @CrossEncoder score)
           (chroma_retriever bm25_retriever : Retriever) (q : string)
  : M string :=
  documents <- _hybrid_search q chroma_retriever bm25_retriever ;;
  window <- _rerank_documents score_lt (mkQueryAndDocs q documents)
                              cross_encoder ;;
  ret (_format_docs window).

(** Sample values for the server. *)
Definition sample_server : @Server Z :=
  mkServer None sample_runtime (fun _ => sample_llm)
           (fun e => detail e)
           (fun e => match e with
                     | FileNotFoundError path => path
                     | Exception msg => msg
                     end).

(** A corpus of two files and no index yet. *)
Definition disk_with_corpus : Disk :=
  mkDisk (Some [mkCorpusFile "a.txt" "alpha"; mkCorpusFile "b.pdf" "beta"])
         (Some []) None.

(** [sample_libs] with a vector store that cannot be created. *)
Definition libs_chroma_fails : IngestLibs :=
  mkIngestLibs (PyPDFLoader_load sample_libs) (TextLoader_load sample_libs)
               (split_documents sample_libs) (inr tt)
               (fun _ => inl (Exception "vector store is locked"))
               (fun _ _ => inr tt).

(** [sample_libs] with a BM25 index that cannot be built. *)
Definition libs_bm25_fails : IngestLibs :=
  mkIngestLibs (PyPDFLoader_load sample_libs) (TextLoader_load sample_libs)
               (split_documents sample_libs) (inr tt)
               (fun _ => inr tt)
               (fun _ _ => inl (Exception "no tokens")).

(** [sample_runtime] with a cross-encoder that scores the second pair
    above the first. *)
Definition sample_runtime_scored : @Runtime Z :=
  mkRuntime (inr tt) (inr (fixed_encoder [3; 9]%Z))
            (Chroma_load sample_runtime) (pickle_load sample_runtime).

Definition sample_server_scored : @Server Z :=
  mkServer None sample_runtime_scored (fun _ => sample_llm)
           (str_HTTPException sample_server) (str_PyException sample_server).

(** No vector-store directory, and a BM25 pickle over two chunks. *)
Definition disk_sparse_only : Disk :=
  mkDisk (Some []) None (Some [chunk_A; chunk_B]).

(* ------------------------------------------------------------------ *)
(** * Properties *)

(** ** The monad *)

Lemma bind_call {A B} (ev : Event) (a : A) (f : A -> M B) :
  bind (call ev a) f = (fst (f a), ev :: snd (f a)).
Proof. unfold bind, call. destruct (f a); reflexivity. Qed.

Lemma bind_ret {A B} (a : A) (f : A -> M B) : bind (ret a) f = f a.
Proof. unfold bind, ret. destruct (f a); reflexivity. Qed.

Lemma bind_raise {A B} (s : Stage) (e : PyException) (f : A -> M B) :
  bind (raise s e) f = raise s e.
Proof. reflexivity. Qed.

(** ** Dictionaries *)

Module PyDictFacts.
Import PyDict.
Section Facts.
Context {V : Type}.
Implicit Types (d : PyDict.t V) (v : V).

Lemma get_setitem key key' v d :
get key' (setitem key v d) =
if String.eqb key key' then Some v else get key' d.
Proof.
induction d as [|[k0 v0] d IH]; simpl.
- reflexivity.
- destruct (String.eqb k0 key) eqn:E0; simpl.
  + apply String.eqb_eq in E0; subst k0.
    destruct (String.eqb key key'); reflexivity.
  + rewrite IH. destruct (String.eqb k0 key') eqn:E1; [|reflexivity].
    apply String.eqb_eq in E1; subst k0. now rewrite String.eqb_sym, E0.
Qed.

Lemma keys_setitem key v d :
keys (setitem key v d) =
if existsb (String.eqb key) (keys d) then keys d else keys d ++ [key].
Proof.
induction d as [|[k0 v0] d IH]; simpl.
- reflexivity.
- rewrite (String.eqb_sym key k0).
  destruct (String.eqb k0 key) eqn:E0; simpl; [reflexivity|].
  unfold keys in *. rewrite IH.
  destruct (existsb (String.eqb key) (map fst d)); reflexivity.
Qed.

Lemma get_In key v d : NoDup (keys d) -> In (key, v) d -> get key d = Some v.
Proof.
induction d as [|[k0 v0] d IH]; simpl; intros ND HIn; [contradiction|].
inversion ND as [|? ? Hk0 ND']; subst.
destruct HIn as [Heq | HIn].
- inversion Heq; subst. now rewrite String.eqb_refl.
- destruct (String.eqb k0 key) eqn:E0; [|now apply IH].
  apply String.eqb_eq in E0; subst k0. exfalso. apply Hk0.
  change key with (fst (key, v)). now apply in_map.
Qed.
End Facts.
End PyDictFacts.

(** ** Hybrid search *)

Lemma find_app {A} (p : A -> bool) (l1 l2 : list A) :
  find p (l1 ++ l2) =
  match find p l1 with Some x => Some x | None => find p l2 end.
Proof.
  induction l1 as [|a l1 IH]; simpl; [reflexivity|].
  destruct (p a); [reflexivity | exact IH].
Qed.

Lemma existsb_eqb_In (t : string) (l : list string) :
  existsb (String.eqb t) l = true <-> In t l.
Proof.
  rewrite existsb_exists. split.
  - intros (x & Hx & E). apply String.eqb_eq in E. now subst.
  - intros H. exists t. split; [assumption | apply String.eqb_refl].
Qed.

Definition dict_step (d : PyDict.t Document) (doc : Document) : PyDict.t Document :=
  PyDict.setitem (page_content doc) doc d.

(** The keys of the dictionary after the loop: the keys present before,
    then the texts that were new, in the order they were first met. *)
Lemma fold_keys (l : list Document) : forall d : PyDict.t Document,
  PyDict.keys (fold_left dict_step l d) =
  PyDict.keys d ++ map page_content (keep_first_occurrence (PyDict.keys d) l).
Proof.
  induction l as [|x l IH]; intros d; simpl.
  - now rewrite app_nil_r.
  - rewrite IH. unfold dict_step. rewrite PyDictFacts.keys_setitem.
    destruct (existsb (String.eqb (page_content x)) (PyDict.keys d)).
    + reflexivity.
    + simpl. now rewrite <- app_assoc.
Qed.

Lemma fold_NoDup (l : list Document) : forall d : PyDict.t Document,
  NoDup (PyDict.keys d) -> NoDup (PyDict.keys (fold_left dict_step l d)).
Proof.
  induction l as [|x l IH]; intros d ND; simpl; [assumption|].
  apply IH. unfold dict_step. rewrite PyDictFacts.keys_setitem.
  destruct (existsb (String.eqb (page_content x)) (PyDict.keys d)) eqn:E.
  - assumption.
  - apply (Permutation_NoDup (l := page_content x :: PyDict.keys d)).
    + apply Permutation_cons_append.
    + constructor; [|assumption].
      intros HIn. apply existsb_eqb_In in HIn. congruence.
Qed.

(** The value stored under a text: the last chunk of the loop that carries
    it, or what was there before if the loop met none. *)
Lemma fold_get (key : string) (l : list Document) : forall d : PyDict.t Document,
  PyDict.get key (fold_left dict_step l d) =
  match last_with_text key l with
  | Some doc => Some doc
  | None => PyDict.get key d
  end.
Proof.
  unfold last_with_text.
  induction l as [|x l IH]; intros d; simpl; [reflexivity|].
  rewrite IH, find_app. destruct (find _ (rev l)); [reflexivity|].
  unfold dict_step. rewrite PyDictFacts.get_setitem. simpl.
  destruct (String.eqb (page_content x) key); reflexivity.
Qed.

Lemma last_with_text_text (key : string) (l : list Document) (doc : Document) :
  last_with_text key l = Some doc -> page_content doc = key /\ In doc l.
Proof.
  unfold last_with_text. intros H. apply find_some in H as [HIn E].
  apply String.eqb_eq in E. split; [assumption | now apply in_rev].
Qed.

Lemma unique_docs_entry (all_docs : list Document) (key : string) (doc : Document) :
  In (key, doc) (unique_docs all_docs) ->
  last_with_text key all_docs = Some doc.
Proof.
  intros HIn. apply PyDictFacts.get_In in HIn.
  - unfold unique_docs in HIn. change (fun d doc => _) with dict_step in HIn.
    rewrite fold_get in HIn. simpl in HIn.
    destruct (last_with_text key all_docs); [assumption | discriminate].
  - apply (fold_NoDup all_docs PyDict.empty). constructor.
Qed.

Lemma unique_docs_keys (all_docs : list Document) :
  PyDict.keys (unique_docs all_docs) =
  map page_content (keep_first_occurrence [] all_docs).
Proof. apply (fold_keys all_docs PyDict.empty). Qed.

(** Every entry is filed under the text of its chunk. *)
Lemma unique_docs_values_keys (all_docs : list Document) :
  map page_content (PyDict.values (unique_docs all_docs)) =
  PyDict.keys (unique_docs all_docs).
Proof.
  unfold PyDict.values, PyDict.keys. rewrite map_map.
  apply map_ext_in. intros [key doc] HIn. simpl.
  now apply unique_docs_entry, last_with_text_text in HIn.
Qed.

Lemma _hybrid_search_eq (q : string) (cr br : Retriever) :
  _hybrid_search q cr br =
  (inr (PyDict.values (unique_docs (invoke cr q ++ invoke br q))),
   [RetrieverInvoke Dense q; RetrieverInvoke Sparse q]).
Proof. reflexivity. Qed.

(** The texts the first-occurrence walk keeps are exactly the texts of its
    input that were not seen before. *)
Lemma keep_first_occurrence_In (t : string) (l : list Document) :
  forall seen,
    In t (map page_content (keep_first_occurrence seen l)) <->
    In t (map page_content l) /\ ~ In t seen.
Proof.
  induction l as [|x l IH]; intros seen; simpl.
  - tauto.
  - destruct (existsb (String.eqb (page_content x)) seen) eqn:E.
    + apply existsb_eqb_In in E. rewrite IH. split.
      * tauto.
      * intros [[Heq | H] Hn]; [rewrite <- Heq in Hn|]; tauto.
    + assert (~ In (page_content x) seen) as Hx
        by (intros H; apply existsb_eqb_In in H; congruence).
      simpl. rewrite IH, in_app_iff. simpl.
      destruct (string_dec (page_content x) t) as [Heq | Hne].
      * rewrite <- Heq. tauto.
      * tauto.
Qed.

Lemma NoDup_map_filter_length {A} (f : A -> string) (t : string) (l : list A) :
  NoDup (map f l) -> In t (map f l) ->
  List.length (filter (fun x => String.eqb t (f x)) l) = 1.
Proof.
  induction l as [|x l IH]; simpl; intros ND HIn; [contradiction|].
  inversion ND as [|? ? Hx ND']; subst.
  destruct (String.eqb t (f x)) eqn:E.
  - apply String.eqb_eq in E; subst t. simpl. f_equal.
    clear IH HIn ND ND'. induction l as [|y l IH]; simpl; [reflexivity|].
    destruct (String.eqb (f x) (f y)) eqn:E.
    + apply String.eqb_eq in E. exfalso. apply Hx. simpl. now left.
    + apply IH. intros H. apply Hx. simpl. now right.
  - apply IH; [assumption|]. destruct HIn as [<- | H]; [|assumption].
    now rewrite String.eqb_refl in E.
Qed.

(** C1 as stated fails: when the sparse result repeats the text of a dense
    chunk, the pool does not hold the first occurrence.  The dictionary
    entry keeps its place but its value is overwritten. *)
Lemma hybrid_search_keeps_first_counterexample :
  ~ (forall (q : string) (cr br : Retriever),
        outcome (_hybrid_search q cr br) =
        inr (keep_first_occurrence [] (invoke cr q ++ invoke br q))).
Proof.
  intros H.
  specialize (H "capital of France?"
                (fixed_retriever [chunk_A; chunk_B])
                (fixed_retriever [chunk_A'])).
  vm_compute in H. discriminate H.
Qed.

(** C1 (amended): the pool has one chunk per distinct text, the texts are in
    first-seen order with dense results before sparse ones, and the chunk
    kept for a text is the last one carrying it in dense-then-sparse
    order. *)
Theorem hybrid_search_first_seen_order_last_kept (q : string) (cr br : Retriever) :
  exists pool,
    outcome (_hybrid_search q cr br) = inr pool /\
    map page_content pool =
      map page_content (keep_first_occurrence [] (invoke cr q ++ invoke br q)) /\
    forall d, In d pool ->
      last_with_text (page_content d) (invoke cr q ++ invoke br q) = Some d.
Proof.
  rewrite _hybrid_search_eq. eexists. split; [reflexivity|]. split.
  - now rewrite unique_docs_values_keys, unique_docs_keys.
  - intros d HIn. unfold PyDict.values in HIn.
    apply in_map_iff in HIn as ([key d'] & Heq & HIn). simpl in Heq; subst d'.
    pose proof (unique_docs_entry _ _ _ HIn) as Hlast.
    destruct (last_with_text_text _ _ _ Hlast) as [-> _]. exact Hlast.
Qed.

(** C2: the pool holds no two chunks with the same text, and every text
    of either result sequence is the text of exactly one pool chunk. *)
Theorem hybrid_search_pool_texts_unique (q : string) (cr br : Retriever) :
  exists pool,
    outcome (_hybrid_search q cr br) = inr pool /\
    NoDup (map page_content pool) /\
    forall d, In d (invoke cr q ++ invoke br q) ->
      List.length (filter (same_text d) pool) = 1.
Proof.
  rewrite _hybrid_search_eq. eexists. split; [reflexivity|].
  assert (NoDup (map page_content
            (PyDict.values (unique_docs (invoke cr q ++ invoke br q))))) as ND.
  { rewrite unique_docs_values_keys.
    apply (fold_NoDup _ PyDict.empty). constructor. }
  split; [exact ND|].
  intros d HIn.
  apply (NoDup_map_filter_length page_content (page_content d)); [exact ND|].
  rewrite unique_docs_values_keys, unique_docs_keys.
  apply keep_first_occurrence_In. split; [now apply in_map | intros []].
Qed.

(** ** Sorting *)

Section ListFacts.
Context {A : Type}.

Lemma StronglySorted_snoc (R : A -> A -> Prop) (l : list A) (x : A) :
  StronglySorted R l -> Forall (fun y => R y x) l ->
  StronglySorted R (l ++ [x]).
Proof.
  induction 1 as [|a l Hs IH Ha]; intros Hx; simpl.
  - repeat constructor.
  - inversion Hx; subst. constructor; [now apply IH|].
    apply Forall_app. split; [assumption | now constructor].
Qed.

Lemma StronglySorted_rev (R : A -> A -> Prop) (l : list A) :
  StronglySorted R l -> StronglySorted (fun x y => R y x) (rev l).
Proof.
  induction 1 as [|a l Hs IH Ha]; simpl; [constructor|].
  apply StronglySorted_snoc; [assumption | now apply Forall_rev].
Qed.

Lemma StronglySorted_firstn (R : A -> A -> Prop) (n : nat) (l : list A) :
  StronglySorted R l -> StronglySorted R (firstn n l).
Proof.
  intros Hs. revert n. induction Hs as [|a l Hs IH Ha]; intros [|n]; simpl;
    try constructor; [apply IH|].
  rewrite Forall_forall in *. intros x Hx. apply Ha.
  rewrite <- (firstn_skipn n l). apply in_or_app. now left.
Qed.

Lemma StronglySorted_nth_error (R : A -> A -> Prop) (l : list A) :
  StronglySorted R l ->
  forall a b x y, a < b ->
    nth_error l a = Some x -> nth_error l b = Some y -> R x y.
Proof.
  induction 1 as [|h l Hs IH Hh]; intros a b x y Hab Hx Hy.
  - destruct a; discriminate.
  - destruct b as [|b]; [lia|]. simpl in Hy. destruct a as [|a]; simpl in Hx.
    + inversion Hx; subst. rewrite Forall_forall in Hh.
      eapply Hh, nth_error_In, Hy.
    + eapply IH; [|eassumption..]. lia.
Qed.

Lemma NoDup_firstn (n : nat) (l : list A) : NoDup l -> NoDup (firstn n l).
Proof.
  intros ND. rewrite <- (firstn_skipn n l) in ND.
  eapply NoDup_app_remove_r, ND.
Qed.

Lemma Forall2_firstn {B} (P : A -> B -> Prop) (n : nat) (l : list A) (l' : list B) :
  Forall2 P l l' -> Forall2 P (firstn n l) (firstn n l').
Proof.
  intros H. revert n. induction H; intros [|n]; simpl; constructor; auto.
Qed.

(** Python's [enumerate]: the element stored with position [i] is the
    [i]-th element. *)
Lemma in_combine_seq (l : list A) : forall start i x,
  In (i, x) (combine (seq start (List.length l)) l) ->
  start <= i /\ nth_error l (i - start) = Some x.
Proof.
  induction l as [|h l IH]; intros start i x; simpl; [intros []|].
  intros [Heq | HIn].
  - inversion Heq; subst. now rewrite Nat.sub_diag.
  - apply IH in HIn as [Hle Hn]. split; [lia|].
    replace (i - start) with (S (i - S start)) by lia. exact Hn.
Qed.

Lemma combine_seq_sorted (l : list A) : forall start,
  StronglySorted (fun p q : nat * A => fst p < fst q)
                 (combine (seq start (List.length l)) l).
Proof.
  induction l as [|h l IH]; intros start; simpl; constructor; [apply IH|].
  apply Forall_forall. intros [i x] HIn.
  apply in_combine_seq in HIn as [Hle _]. simpl. lia.
Qed.

Lemma Forall2_fst_snd {B} (P : A -> B -> Prop) (l : list (A * B)) :
  Forall (fun p => P (fst p) (snd p)) l ->
  Forall2 P (map fst l) (map snd l).
Proof. induction 1; simpl; constructor; assumption. Qed.

Lemma StronglySorted_map {B} (f : A -> B) (R : A -> A -> Prop)
      (R' : B -> B -> Prop) (P : A -> Prop) (l : list A) :
  (forall p q, P p -> P q -> R p q -> R' (f p) (f q)) ->
  Forall P l -> StronglySorted R l -> StronglySorted R' (map f l).
Proof.
  intros Himp HP Hs. induction Hs as [|a l Hs IH Ha]; simpl; constructor.
  - apply IH. now inversion HP.
  - inversion HP as [|? ? Pa HP']; subst.
    rewrite Forall_forall in *. intros b Hb.
    apply in_map_iff in Hb as (q & <- & Hq). apply Himp; auto.
Qed.

Lemma map_snd_combine_seq (l : list A) : forall start,
  map snd (combine (seq start (List.length l)) l) = l.
Proof. induction l; intros start; simpl; [|rewrite IHl]; reflexivity. Qed.

Lemma map_fst_combine_seq (l : list A) : forall start,
  map fst (combine (seq start (List.length l)) l) = seq start (List.length l).
Proof. induction l; intros start; simpl; [|rewrite IHl]; reflexivity. Qed.
End ListFacts.

Section SortFacts.
Context {K A : Type}.
Variable lt : K -> K -> bool.
Variable key : A -> K.

Lemma insort_right_perm (x : A) (l : list A) :
  Permutation (x :: l) (insort_right lt key x l).
Proof.
  induction l as [|y l IH]; simpl; [reflexivity|].
  destruct (lt (key x) (key y)); [reflexivity|].
  rewrite perm_swap. now constructor.
Qed.

Lemma fold_insort_perm (l : list A) : forall sorted,
  Permutation (sorted ++ l)
              (fold_left (fun sorted x => insort_right lt key x sorted) l sorted).
Proof.
  induction l as [|x l IH]; intros sorted; simpl.
  - now rewrite app_nil_r.
  - rewrite <- IH, <- insort_right_perm.
    now rewrite <- Permutation_middle.
Qed.

Lemma list_sort_perm (reverse : bool) (l : list A) :
  Permutation l (list_sort lt key reverse l).
Proof.
  unfold list_sort, sort_ascending. destruct reverse.
  - rewrite <- Permutation_rev, <- (fold_insort_perm (rev l) []). simpl.
    apply Permutation_rev.
  - apply (fold_insort_perm l []).
Qed.

Lemma list_sort_length (reverse : bool) (l : list A) :
  List.length (list_sort lt key reverse l) = List.length l.
Proof. symmetry. apply Permutation_length, list_sort_perm. Qed.
End SortFacts.

(** Sorting commutes with a change of payload that leaves the keys alone. *)
Section SortMap.
Context {K A B : Type}.
Variable lt : K -> K -> bool.
Variable keyA : A -> K.
Variable keyB : B -> K.
Variable f : A -> B.
Hypothesis key_f : forall x, keyB (f x) = keyA x.

Lemma insort_right_map (x : A) (l : list A) :
  map f (insort_right lt keyA x l) = insort_right lt keyB (f x) (map f l).
Proof.
  induction l as [|y l IH]; simpl; [reflexivity|].
  rewrite !key_f. destruct (lt (keyA x) (keyA y)); simpl; [reflexivity|].
  now rewrite IH.
Qed.

Lemma fold_insort_map (l : list A) : forall sorted,
  map f (fold_left (fun s x => insort_right lt keyA x s) l sorted) =
  fold_left (fun s x => insort_right lt keyB x s) (map f l) (map f sorted).
Proof.
  induction l as [|x l IH]; intros sorted; simpl; [reflexivity|].
  now rewrite IH, insort_right_map.
Qed.

Lemma list_sort_map (reverse : bool) (l : list A) :
  map f (list_sort lt keyA reverse l) = list_sort lt keyB reverse (map f l).
Proof.
  unfold list_sort, sort_ascending. destruct reverse.
  - now rewrite map_rev, fold_insort_map, map_rev.
  - apply fold_insort_map.
Qed.
End SortMap.

(** Stability.  [<] on keys is assumed to be a strict weak order: it is
    asymmetric, and an element is below [b] or above [a] whenever [a < b]. *)
Section Stability.
Context {K A : Type}.
Variable lt : K -> K -> bool.
Variable key : A -> K.
Hypothesis lt_asym : forall a b, lt a b = true -> lt b a = false.
Hypothesis lt_cotrans :
  forall a b c, lt a b = true -> lt a c = true \/ lt c b = true.

Section Ascending.
(** [E x y]: [x] stands before [y] in the list being sorted. *)
Variable E : A -> A -> Prop.

Lemma insort_right_sorted (x : A) (sorted : list A) :
  StronglySorted (ascending_stable lt key E) sorted ->
  Forall (fun y => E y x) sorted ->
  StronglySorted (ascending_stable lt key E) (insort_right lt key x sorted).
Proof.
  unfold ascending_stable.
  induction 1 as [|y l Hs IH Hy]; intros HE; simpl.
  - repeat constructor.
  - inversion HE as [|? ? Eyx HE']; subst.
    destruct (lt (key x) (key y)) eqn:Hxy.
    + constructor; [now constructor|]. constructor; [now left|].
      rewrite Forall_forall in *. intros z Hz. left.
      destruct (lt_cotrans _ _ (key z) Hxy) as [H | H]; [assumption|].
      destruct (Hy z Hz) as [Hyz | [Hzy _]]; [|congruence].
      apply lt_asym in Hyz. congruence.
    + constructor; [now apply IH|].
      rewrite Forall_forall in *. intros z Hz.
      apply (Permutation_in z (Permutation_sym (insort_right_perm lt key x l)))
        in Hz.
      destruct Hz as [<- | Hz]; [right; now split | now apply Hy].
Qed.

Lemma fold_insort_sorted (l : list A) : forall sorted,
  StronglySorted E l -> StronglySorted (ascending_stable lt key E) sorted ->
  (forall a x, In a sorted -> In x l -> E a x) ->
  StronglySorted (ascending_stable lt key E)
    (fold_left (fun s x => insort_right lt key x s) l sorted).
Proof.
  induction l as [|x l IH]; intros sorted HE Hs Hbefore; simpl;
    [assumption|].
  apply StronglySorted_inv in HE as [HE Hx].
  apply IH; [assumption | |].
  - apply insort_right_sorted; [assumption|].
    apply Forall_forall. intros a Ha. apply Hbefore; simpl; auto.
  - intros a z Ha Hz.
    apply (Permutation_in a
             (Permutation_sym (insort_right_perm lt key x sorted))) in Ha.
    destruct Ha as [<- | Ha].
    + rewrite Forall_forall in Hx. now apply Hx.
    + apply Hbefore; simpl; auto.
Qed.
End Ascending.

End Stability.

Section Positions.
Context {K A : Type}.
Variable lt : K -> K -> bool.
Variable key : A -> K.
Hypothesis lt_asym : forall a b, lt a b = true -> lt b a = false.
Hypothesis lt_cotrans :
  forall a b c, lt a b = true -> lt a c = true \/ lt c b = true.

(** The descending sort read as a choice of input positions. *)
Lemma list_sort_reverse_positions (l : list A) :
  exists idx : list nat,
    Permutation idx (seq 0 (List.length l)) /\
    Forall2 (fun i x => nth_error l i = Some x) idx (list_sort lt key true l) /\
    StronglySorted (descending_stable lt key l) idx.
Proof.
  pose (tagged := combine (seq 0 (List.length l)) l).
  pose (keyT := fun p : nat * A => key (snd p)).
  pose (st := list_sort lt keyT true tagged).
  assert (Permutation tagged st) as Hperm by apply list_sort_perm.
  assert (Forall (fun p => nth_error l (fst p) = Some (snd p)) st) as Hat.
  { apply Forall_forall. intros [i x] HIn.
    apply (Permutation_in _ (Permutation_sym Hperm)), in_combine_seq in HIn.
    simpl. destruct HIn as [_ HIn]. now rewrite Nat.sub_0_r in HIn. }
  exists (map fst st). split; [|split].
  - rewrite <- (map_fst_combine_seq l 0). apply Permutation_map.
    now apply Permutation_sym.
  - replace (list_sort lt key true l) with (map snd st).
    + now apply Forall2_fst_snd.
    + unfold st. rewrite (list_sort_map lt keyT key snd) by reflexivity.
      unfold tagged. now rewrite map_snd_combine_seq.
  - apply (StronglySorted_map fst
             (fun p q => ascending_stable lt keyT
                           (fun x y => fst y < fst x) q p)
             _ (fun p => nth_error l (fst p) = Some (snd p))); [|exact Hat|].
    + intros [i x] [j y] Hi Hj Hord x' y' Hx' Hy'. simpl in *.
      assert (x' = x) by congruence. assert (y' = y) by congruence. subst.
      unfold ascending_stable, keyT in Hord. simpl in Hord.
      destruct Hord as [Hlt | [Hnlt Hij]].
      * split; [now apply lt_asym | congruence].
      * split; [assumption | now intros _].
    + unfold st, list_sort. apply StronglySorted_rev.
      apply (fold_insort_sorted lt keyT lt_asym lt_cotrans
               (fun x y : nat * A => fst y < fst x)).
      * apply (StronglySorted_rev (fun p q : nat * A => fst p < fst q)).
        apply combine_seq_sorted.
      * constructor.
      * intros a x [].
Qed.
End Positions.

(** ** Re-ranking *)

Lemma nth_error_combine {A B} (l : list A) (l' : list B) : forall i x y,
  nth_error (combine l l') i = Some (x, y) <->
  nth_error l i = Some x /\ nth_error l' i = Some y.
Proof.
  revert l'. induction l as [|a l IH]; intros [|b l'] [|i] x y; simpl;
    try (split; [discriminate | intros [? ?]; discriminate]).
  - split; [intros H; inversion H; auto | intros [H1 H2]; congruence].
  - apply IH.
Qed.

Lemma Forall2_nth_error_l {A B} (P : A -> B -> Prop) (l : list A) (l' : list B) :
  Forall2 P l l' ->
  forall a x, nth_error l a = Some x ->
    exists y, nth_error l' a = Some y /\ P x y.
Proof.
  induction 1 as [|x0 y0 l l' H0 H IH]; intros [|a] x Hx; simpl in *;
    try discriminate.
  - inversion Hx; subst. eauto.
  - eauto.
Qed.

Lemma Forall2_map_r {A B C} (P : A -> C -> Prop) (f : B -> C)
      (l : list A) (l' : list B) :
  Forall2 (fun x y => P x (f y)) l l' -> Forall2 P l (map f l').
Proof. induction 1; simpl; constructor; assumption. Qed.

Lemma Zltb_asym (a b : Z) : Z.ltb a b = true -> Z.ltb b a = false.
Proof. rewrite Z.ltb_lt, Z.ltb_ge. lia. Qed.

Lemma Zltb_cotrans (a b c : Z) :
  Z.ltb a b = true -> Z.ltb a c = true \/ Z.ltb c b = true.
Proof. rewrite !Z.ltb_lt. lia. Qed.

Section RerankFacts.
Context {score : Type}.
Variable score_lt : score -> score -> bool.

Lemma _rerank_documents_empty (m : CrossEncoder) (q : string) :
  _rerank_documents score_lt (mkQueryAndDocs q []) m = (inr [], []).
Proof. reflexivity. Qed.

Lemma _rerank_documents_eq (m : @CrossEncoder score) (q : string)
      (docs : list Document) :
  docs <> [] ->
  _rerank_documents score_lt (mkQueryAndDocs q docs) m =
  (inr (map snd (firstn 3
          (scored_docs score_lt (predict m (query_pairs q docs)) docs))),
   [CrossEncoderPredict (query_pairs q docs)]).
Proof. destruct docs; [congruence | reflexivity]. Qed.

Lemma scored_docs_nil (scores : list score) :
  scored_docs score_lt scores [] = [].
Proof. unfold scored_docs. now destruct scores. Qed.

(** With or without a call to the model, the window is the head of the
    sorted list. *)
Lemma _rerank_documents_outcome (m : @CrossEncoder score) (q : string)
      (docs : list Document) :
  outcome (_rerank_documents score_lt (mkQueryAndDocs q docs) m) =
  inr (map snd (firstn 3
         (scored_docs score_lt (predict m (query_pairs q docs)) docs))).
Proof.
  destruct docs as [|d docs].
  - now rewrite scored_docs_nil.
  - now rewrite _rerank_documents_eq.
Qed.

Lemma scored_docs_length (scores : list score) (docs : list Document) :
  List.length (scored_docs score_lt scores docs) =
  Nat.min (List.length scores) (List.length docs).
Proof. unfold scored_docs. now rewrite list_sort_length, length_combine. Qed.

Hypothesis score_lt_asym :
  forall a b, score_lt a b = true -> score_lt b a = false.
Hypothesis score_lt_cotrans :
  forall a b c, score_lt a b = true -> score_lt a c = true \/ score_lt c b = true.

(** The window as a choice of distinct pool positions, scores not going
    up, equal scores in pool order. *)
Lemma rerank_window_positions (scores : list score) (docs : list Document) :
  exists idx : list nat,
    NoDup idx /\
    at_positions docs idx
      (map snd (firstn 3 (scored_docs score_lt scores docs))) /\
    forall a b i j si sj,
      a < b -> nth_error idx a = Some i -> nth_error idx b = Some j ->
      nth_error scores i = Some si -> nth_error scores j = Some sj ->
      score_lt si sj = false /\ (score_lt sj si = false -> i < j).
Proof.
  destruct (list_sort_reverse_positions score_lt fst
              score_lt_asym score_lt_cotrans (combine scores docs))
    as (idx & Hperm & Hat & Hsorted).
  exists (firstn 3 idx). split; [|split].
  - apply NoDup_firstn.
    apply (Permutation_NoDup (Permutation_sym Hperm)), seq_NoDup.
  - apply Forall2_map_r, (Forall2_firstn _ 3).
    eapply Forall2_impl; [|exact Hat].
    intros i [s d] H. now apply nth_error_combine in H.
  - intros a b i j si sj Hab Ha Hb Hsi Hsj.
    pose proof (StronglySorted_nth_error _ _
                  (StronglySorted_firstn _ 3 _ Hsorted) a b i j Hab Ha Hb)
      as Hij.
    destruct (Forall2_nth_error_l _ _ _ (Forall2_firstn _ 3 _ _ Hat) _ _ Ha)
      as ([s d] & _ & Hi).
    destruct (Forall2_nth_error_l _ _ _ (Forall2_firstn _ 3 _ _ Hat) _ _ Hb)
      as ([s' d'] & _ & Hj).
    specialize (Hij _ _ Hi Hj). simpl in Hij.
    apply nth_error_combine in Hi as [Hi _], Hj as [Hj _].
    now replace si with s by congruence; replace sj with s' by congruence.
Qed.
End RerankFacts.

Section RerankClaims.
Context {score : Type}.
Variable score_lt : score -> score -> bool.

(** C4: the Context Window is the first three entries of the sorted list
    of scored chunks, all of them if there are fewer; its length is at
    most min(3, length of the pool). *)
Theorem rerank_window_bounded (m : @CrossEncoder score) (q : string)
        (docs : list Document) :
  let scores := predict m (query_pairs q docs) in
  exists window,
    outcome (_rerank_documents score_lt (mkQueryAndDocs q docs) m) = inr window /\
    window = map snd (firstn 3 (scored_docs score_lt scores docs)) /\
    List.length window =
      Nat.min 3 (Nat.min (List.length scores) (List.length docs)) /\
    List.length window <= Nat.min 3 (List.length docs).
Proof.
  intros scores. eexists. split; [apply _rerank_documents_outcome|].
  split; [reflexivity|].
  fold scores. rewrite length_map, length_firstn, scored_docs_length.
  split; lia.
Qed.

(** C5: on an empty Candidate Pool the re-ranker returns the empty window
    at once and its trace holds no call, so the cross-encoder is not
    invoked. *)
Theorem rerank_empty_pool_no_model_call (m : @CrossEncoder score) (q : string) :
  outcome (_rerank_documents score_lt (mkQueryAndDocs q []) m) = inr [] /\
  trace (_rerank_documents score_lt (mkQueryAndDocs q []) m) = [].
Proof. now rewrite _rerank_documents_empty. Qed.

(** On a pool that is not empty the model is called once, on all pairs. *)
Lemma rerank_nonempty_pool_one_model_call (m : @CrossEncoder score)
      (q : string) (docs : list Document) :
  docs <> [] ->
  trace (_rerank_documents score_lt (mkQueryAndDocs q docs) m) =
  [CrossEncoderPredict (query_pairs q docs)].
Proof. intros H. now rewrite _rerank_documents_eq. Qed.

Hypothesis score_lt_asym :
  forall a b, score_lt a b = true -> score_lt b a = false.
Hypothesis score_lt_cotrans :
  forall a b c, score_lt a b = true -> score_lt a c = true \/ score_lt c b = true.

(** C3: two chunks of the Context Window whose scores are equal (neither
    is below the other) stand in the window in the order of their
    positions in the Candidate Pool. *)
Theorem rerank_ties_keep_pool_order (m : @CrossEncoder score) (q : string)
        (docs : list Document) :
  docs <> [] ->
  let scores := predict m (query_pairs q docs) in
  exists window idx,
    outcome (_rerank_documents score_lt (mkQueryAndDocs q docs) m) = inr window /\
    NoDup idx /\
    at_positions docs idx window /\
    forall a b i j si sj,
      a < b -> nth_error idx a = Some i -> nth_error idx b = Some j ->
      nth_error scores i = Some si -> nth_error scores j = Some sj ->
      score_lt si sj = false -> score_lt sj si = false ->
      i < j.
Proof.
  intros _ scores.
  destruct (rerank_window_positions score_lt score_lt_asym score_lt_cotrans
              scores docs) as (idx & ND & Hat & Hord).
  eexists. exists idx. split; [apply _rerank_documents_outcome|].
  split; [exact ND|]. split; [exact Hat|].
  intros a b i j si sj Hab Ha Hb Hsi Hsj _ Htie.
  now apply (Hord a b i j si sj).
Qed.

(** C6 (amended): the Context Window consists of chunks taken from distinct
    positions of the Candidate Pool, at most three of them, with scores
    that never go up along the window and equal scores in pool order. *)
Theorem rerank_window_sorted_selection (m : @CrossEncoder score) (q : string)
        (docs : list Document) :
  let scores := predict m (query_pairs q docs) in
  exists window idx,
    outcome (_rerank_documents score_lt (mkQueryAndDocs q docs) m) = inr window /\
    List.length window <= 3 /\
    NoDup idx /\
    at_positions docs idx window /\
    forall a b i j si sj,
      a < b -> nth_error idx a = Some i -> nth_error idx b = Some j ->
      nth_error scores i = Some si -> nth_error scores j = Some sj ->
      score_lt si sj = false /\ (score_lt sj si = false -> i < j).
Proof.
  intros scores.
  destruct (rerank_window_positions score_lt score_lt_asym score_lt_cotrans
              scores docs) as (idx & ND & Hat & Hord).
  eexists. exists idx. split; [apply _rerank_documents_outcome|].
  split; [|auto].
  rewrite length_map, length_firstn. lia.
Qed.
End RerankClaims.

Lemma rerank_ties_keep_pool_order_witness :
  [chunk_A; chunk_B; chunk_A'] <> [] /\
  exists window idx,
    outcome (_rerank_documents Z.ltb
               (mkQueryAndDocs "capital of France?" [chunk_A; chunk_B; chunk_A'])
               (fixed_encoder [7; 7; 7]%Z)) = inr window /\
    NoDup idx /\
    at_positions [chunk_A; chunk_B; chunk_A'] idx window /\
    forall a b i j si sj,
      a < b -> nth_error idx a = Some i -> nth_error idx b = Some j ->
      nth_error [7; 7; 7]%Z i = Some si -> nth_error [7; 7; 7]%Z j = Some sj ->
      Z.ltb si sj = false -> Z.ltb sj si = false ->
      i < j.
Proof.
  split; [discriminate|].
  apply (rerank_ties_keep_pool_order Z.ltb Zltb_asym Zltb_cotrans
           (fixed_encoder [7; 7; 7]%Z) "capital of France?"
           [chunk_A; chunk_B; chunk_A']).
  discriminate.
Defined.

Lemma rerank_window_sorted_selection_witness :
  exists window idx,
    outcome (_rerank_documents Z.ltb
               (mkQueryAndDocs "capital of France?" [chunk_A; chunk_B])
               (fixed_encoder [3; 9]%Z)) = inr window /\
    List.length window <= 3 /\
    NoDup idx /\
    at_positions [chunk_A; chunk_B] idx window /\
    forall a b i j si sj,
      a < b -> nth_error idx a = Some i -> nth_error idx b = Some j ->
      nth_error [3; 9]%Z i = Some si -> nth_error [3; 9]%Z j = Some sj ->
      Z.ltb si sj = false /\ (Z.ltb sj si = false -> i < j).
Proof.
  apply (rerank_window_sorted_selection Z.ltb Zltb_asym Zltb_cotrans
           (fixed_encoder [3; 9]%Z) "capital of France?" [chunk_A; chunk_B]).
Defined.

(** C6 as stated fails: a chunk that scores higher than one before it in
    the pool moves in front of it, so the window is not a subsequence of
    the pool. *)
Lemma rerank_window_subsequence_counterexample :
  ~ (forall (m : @CrossEncoder Z) (q : string) (docs window : list Document),
        outcome (_rerank_documents Z.ltb (mkQueryAndDocs q docs) m) = inr window ->
        is_subsequence window docs = true).
Proof.
  intros H.
  specialize (H (fixed_encoder [3; 9]%Z) "capital of France?"
                [chunk_A; chunk_B] [chunk_B; chunk_A] eq_refl).
  vm_compute in H. discriminate H.
Qed.

(** ** Context assembly *)

(** C8: the assembled context is the texts of the window in window order
    with a blank line (two newlines) between neighbours; for the two Paris
    chunks it is the expected string. *)
Theorem format_docs_joins_with_blank_line :
  _format_docs [] = "" /\
  (forall d, _format_docs [d] = page_content d) /\
  (forall d d' rest,
      _format_docs (d :: d' :: rest) =
      (page_content d ++ (newline ++ newline) ++ _format_docs (d' :: rest))%string) /\
  (forall m1 m2,
      _format_docs [mkDocument "Paris is the capital of France" m1;
                    mkDocument "The Eiffel Tower is in Paris" m2] =
      ("Paris is the capital of France" ++ newline ++ newline ++
       "The Eiffel Tower is in Paris")%string).
Proof. repeat split. Qed.

(** ** The pipeline *)

Section PipelineClaims.
Context {score : Type}.
Variable score_lt : score -> score -> bool.

(** A failing index load ends the run at that load. *)
Lemma run_rag_pipeline_load_failure
      (rt : @Runtime score) (disk : Disk) (q : string) (llm : ChatBackend)
      (ce : @CrossEncoder score) :
  HuggingFaceEmbeddings_load rt = inr tt ->
  CrossEncoder_load rt = inr ce ->
  index_load_fails rt disk ->
  exists stage e,
    run_rag_pipeline score_lt rt disk q llm = (inl (Raise stage e), []) /\
    (stage = LoadVectorstore \/ stage = LoadBM25).
Proof.
  intros Hemb Hce Hun. unfold run_rag_pipeline. rewrite Hemb, Hce. simpl.
  destruct (Chroma_load rt (vectorstore disk)) as [e | vs] eqn:Hvs; simpl.
  - exists LoadVectorstore, e. auto.
  - unfold load_bm25.
    destruct Hun as [[e He] | [Hnone | (f & e & Hf & He)]].
    + congruence.
    + rewrite Hnone. simpl. exists LoadBM25, (FileNotFoundError BM25_INDEX_PATH).
      auto.
    + rewrite Hf, He. simpl. exists LoadBM25, e. auto.
Qed.

(** A missing BM25 pickle is reported as [FileNotFoundError]. *)
Lemma missing_bm25_pickle_raises_FileNotFoundError
      (rt : @Runtime score) (disk : Disk) (q : string) (llm : ChatBackend)
      (ce : @CrossEncoder score) (vs : Retriever) :
  HuggingFaceEmbeddings_load rt = inr tt ->
  CrossEncoder_load rt = inr ce ->
  Chroma_load rt (vectorstore disk) = inr vs ->
  bm25_index disk = None ->
  run_rag_pipeline score_lt rt disk q llm =
  (inl (Raise LoadBM25 (FileNotFoundError BM25_INDEX_PATH)), []).
Proof.
  intros Hemb Hce Hvs Hnone. unfold run_rag_pipeline, load_bm25.
  now rewrite Hemb, Hce, Hvs, Hnone.
Qed.

(** C10: when retrieval yields an empty Candidate Pool the assembled
    context is the empty string, and the run still calls the chat backend,
    once, with the prompt whose context slot is empty; the cross-encoder is
    not called and the answer is whatever the backend returns. *)
Theorem empty_pool_still_prompts_llm
        (rt : @Runtime score) (disk : Disk) (q : string) (llm : ChatBackend)
        (ce : @CrossEncoder score) (vs bm : Retriever) (f : list Document) :
  HuggingFaceEmbeddings_load rt = inr tt ->
  CrossEncoder_load rt = inr ce ->
  Chroma_load rt (vectorstore disk) = inr vs ->
  bm25_index disk = Some f ->
  pickle_load rt f = inr bm ->
  outcome (_hybrid_search q (set_k 5 vs) (set_k 5 bm)) = inr [] ->
  _format_docs [] = "" /\
  trace (run_rag_pipeline score_lt rt disk q llm) =
    [RetrieverInvoke Dense q; RetrieverInvoke Sparse q;
     LLMInvoke (RAG_PROMPT "" q)] /\
  outcome (run_rag_pipeline score_lt rt disk q llm) =
    match complete llm (RAG_PROMPT "" q) with
    | inl e => inl (Raise InvokeLLM e)
    | inr answer => inr answer
    end.
Proof.
  intros Hemb Hce Hvs Hf Hbm Hpool. split; [reflexivity|].
  unfold run_rag_pipeline, load_bm25. rewrite Hemb, Hce, Hvs, Hf, Hbm.
  rewrite _hybrid_search_eq in *. simpl in Hpool. inversion Hpool as [Hnil].
  simpl. rewrite Hnil. simpl. unfold invoke_llm.
  change (_format_docs []) with EmptyString.
  destruct (complete llm (RAG_PROMPT "" q)); split; reflexivity.
Qed.
End PipelineClaims.

Lemma empty_pool_still_prompts_llm_witness :
  _format_docs [] = "" /\
  trace (run_rag_pipeline Z.ltb sample_runtime disk_no_chunks
           "capital of France?" sample_llm) =
    [RetrieverInvoke Dense "capital of France?";
     RetrieverInvoke Sparse "capital of France?";
     LLMInvoke (RAG_PROMPT "" "capital of France?")] /\
  outcome (run_rag_pipeline Z.ltb sample_runtime disk_no_chunks
             "capital of France?" sample_llm) =
    match complete sample_llm (RAG_PROMPT "" "capital of France?") with
    | inl e => inl (Raise InvokeLLM e)
    | inr answer => inr answer
    end.
Proof.
  apply (empty_pool_still_prompts_llm Z.ltb sample_runtime disk_no_chunks
           "capital of France?" sample_llm (fixed_encoder [])
           (fixed_retriever []) (fixed_retriever []) []);
    reflexivity.
Defined.

(** ** Ingestion *)

Lemma clear_indexes_empty (disk : Disk) : indexes_empty (clear_indexes disk).
Proof.
  destruct disk as [c [v|] [b|]]; split; reflexivity.
Qed.

Lemma clear_indexes_corpus (disk : Disk) :
  corpus (clear_indexes disk) = corpus disk.
Proof. destruct disk as [c [v|] [b|]]; reflexivity. Qed.

(** C9: a run that loads no document, or splits the documents into no
    chunk, returns without raising and leaves the disk as [clear_indexes]
    made it: both indexes cleared and unpopulated. *)
Theorem ingestion_without_chunks_leaves_indexes_cleared
        (libs : IngestLibs) (disk : Disk) :
  load_documents libs (corpus disk) = [] \/
  split_documents libs (load_documents libs (corpus disk)) = [] ->
  exists disk',
    run_ingestion libs disk = (inr tt, disk') /\
    disk' = clear_indexes disk /\
    indexes_empty disk'.
Proof.
  intros H. exists (clear_indexes disk).
  split; [|split; [reflexivity | apply clear_indexes_empty]].
  unfold run_ingestion. rewrite clear_indexes_corpus.
  destruct (load_documents libs (corpus disk)) as [|d docs]; [reflexivity|].
  destruct H as [H | H]; [discriminate|]. now rewrite H.
Qed.

Lemma ingestion_without_chunks_leaves_indexes_cleared_witness :
  exists disk',
    run_ingestion sample_libs disk_built = (inr tt, disk') /\
    disk' = clear_indexes disk_built /\
    indexes_empty disk'.
Proof.
  apply (ingestion_without_chunks_leaves_indexes_cleared sample_libs disk_built).
  left. reflexivity.
Defined.

(** Whatever a run of ingestion leaves behind, the BM25 pickle exists only
    next to a populated vector store. *)
Lemma ingestion_bm25_needs_vectorstore (libs : IngestLibs) (disk0 : Disk) :
  let disk := snd (run_ingestion libs disk0) in
  bm25_index disk = None \/
  exists chunks, chunks <> [] /\ vectorstore disk = Some chunks.
Proof.
  pose proof (clear_indexes_empty disk0) as [_ Hb].
  unfold run_ingestion.
  destruct (load_documents libs (corpus (clear_indexes disk0))); [now left|].
  destruct (split_documents libs _) as [|c chunks]; [now left|].
  destruct (HuggingFaceEmbeddings_init libs); [now left|].
  unfold create_vectorstore.
  destruct (Chroma_from_documents libs (c :: chunks)); [now left|].
  unfold create_bm25_index.
  destruct (BM25Retriever_from_texts libs _ _); simpl.
  - now left.
  - right. exists (c :: chunks). split; [discriminate | reflexivity].
Qed.

(** So a query after any ingestion run that left an index unpopulated
    fails, whatever the vector-store constructor does with an empty
    directory. *)
Lemma unpopulated_index_after_ingestion_fails
      (libs : IngestLibs) (disk0 : Disk) (rt : @Runtime Z)
      (q : string) (llm : ChatBackend) (ce : @CrossEncoder Z) :
  let disk := snd (run_ingestion libs disk0) in
  HuggingFaceEmbeddings_load rt = inr tt ->
  CrossEncoder_load rt = inr ce ->
  vectorstore disk = Some [] \/ bm25_index disk = None ->
  exists stage e,
    run_rag_pipeline Z.ltb rt disk q llm = (inl (Raise stage e), []) /\
    (stage = LoadVectorstore \/ stage = LoadBM25).
Proof.
  intros disk Hemb Hce Hun.
  apply (run_rag_pipeline_load_failure Z.ltb rt disk q llm ce Hemb Hce).
  right. left.
  destruct (ingestion_bm25_needs_vectorstore libs disk0)
    as [Hnone | (chunks & Hne & Hvs)]; [exact Hnone|].
  destruct Hun as [Hempty | Hnone]; [|exact Hnone].
  fold disk in Hvs. congruence.
Qed.

(** ** Worked examples *)

(** Dense returns A and B, sparse returns the text of A again from another
    file: the pool keeps two entries in first-seen order, and the entry for
    the repeated text is the sparse chunk. *)
Example hybrid_search_example :
  _hybrid_search "capital of France?"
                 (fixed_retriever [chunk_A; chunk_B])
                 (fixed_retriever [chunk_A']) =
  (inr [chunk_A'; chunk_B],
   [RetrieverInvoke Dense "capital of France?";
    RetrieverInvoke Sparse "capital of France?"]).
Proof. reflexivity. Qed.

(** Scores 9 and 3 keep A before B; the assembled context follows. *)
Example rerank_example :
  _rerank_documents Z.ltb
    (mkQueryAndDocs "What is the capital of France?" [chunk_A; chunk_B])
    (fixed_encoder [9; 3]%Z) =
  (inr [chunk_A; chunk_B],
   [CrossEncoderPredict
      [("What is the capital of France?", "Paris is the capital of France");
       ("What is the capital of France?", "The Eiffel Tower is in Paris")]]).
Proof. reflexivity. Qed.

(** Four chunks with scores 5, 8, 5, 8: the window is the two chunks that
    score 8 in pool order, then the first chunk that scores 5. *)
Example rerank_ties_example :
  outcome (_rerank_documents Z.ltb
             (mkQueryAndDocs "q" [chunk_A; chunk_B; chunk_A'; chunk_A])
             (fixed_encoder [5; 8; 5; 8]%Z)) =
  inr [chunk_B; chunk_A; chunk_A].
Proof. reflexivity. Qed.

(** A full run over built indexes. *)
Example run_rag_pipeline_example :
  trace (run_rag_pipeline Z.ltb
           (mkRuntime (inr tt) (inr (fixed_encoder [3; 9]%Z))
                      (Chroma_load sample_runtime) (pickle_load sample_runtime))
           disk_built "capital of France?" sample_llm) =
  [RetrieverInvoke Dense "capital of France?";
   RetrieverInvoke Sparse "capital of France?";
   CrossEncoderPredict
     [("capital of France?", "Paris is the capital of France");
      ("capital of France?", "The Eiffel Tower is in Paris")];
   LLMInvoke
     (RAG_PROMPT
        ("The Eiffel Tower is in Paris" ++ newline ++ newline ++
         "Paris is the capital of France")
        "capital of France?")].
Proof. reflexivity. Qed.

(* ------------------------------------------------------------------ *)
(** * Further properties of the hybrid search *)

Lemma keep_first_occurrence_length (l : list Document) : forall seen,
  List.length (keep_first_occurrence seen l) <= List.length l.
Proof.
  induction l as [|x l IH]; intros seen; simpl; [lia|].
  destruct (existsb _ seen); simpl; [specialize (IH seen) | specialize (IH (seen ++ [page_content x]))]; lia.
Qed.

Lemma keep_first_occurrence_app (l1 l2 : list Document) : forall seen,
  keep_first_occurrence seen (l1 ++ l2) =
  keep_first_occurrence seen l1 ++
  keep_first_occurrence
    (seen ++ map page_content (keep_first_occurrence seen l1)) l2.
Proof.
  induction l1 as [|x l1 IH]; intros seen; simpl.
  - now rewrite app_nil_r.
  - destruct (existsb _ seen); [apply IH|].
    simpl. rewrite IH, <- app_assoc. reflexivity.
Qed.

(** Nothing is dropped from a list whose texts are distinct and new. *)
Lemma keep_first_occurrence_NoDup (l : list Document) : forall seen,
  NoDup (map page_content l) ->
  (forall t, In t (map page_content l) -> ~ In t seen) ->
  keep_first_occurrence seen l = l.
Proof.
  induction l as [|x l IH]; intros seen ND Hnew; simpl; [reflexivity|].
  inversion ND as [|? ? Hx ND']; subst.
  destruct (existsb _ seen) eqn:E.
  - apply existsb_eqb_In in E. exfalso. apply (Hnew (page_content x)); simpl; auto.
  - f_equal. apply IH; [assumption|].
    intros t Ht HIn. apply in_app_or in HIn as [HIn | [<- | []]].
    + apply (Hnew t); simpl; auto.
    + contradiction.
Qed.

(** Two lists with the same distinct texts, one drawn from the other, are
    the same list. *)
Lemma same_texts_same_list (l1 l2 : list Document) :
  map page_content l1 = map page_content l2 ->
  NoDup (map page_content l2) ->
  (forall d, In d l1 -> In d l2) ->
  l1 = l2.
Proof.
  revert l2. induction l1 as [|x l1 IH]; intros [|y l2] Htexts ND Hin;
    simpl in *; try discriminate; [reflexivity|].
  injection Htexts as Hxy Htexts. inversion ND as [|? ? Hy ND']; subst.
  assert (x = y) as ->.
  { destruct (Hin x (or_introl eq_refl)) as [Heq | HIn]; [now symmetry|].
    exfalso. apply Hy. rewrite <- Hxy. now apply in_map. }
  f_equal. apply IH; [assumption | assumption |].
  intros d Hd. destruct (Hin d (or_intror Hd)) as [<- | HIn]; [|assumption].
  exfalso. apply Hy. rewrite <- Htexts. now apply in_map.
Qed.

Lemma unique_docs_values_In (all_docs : list Document) (d : Document) :
  In d (PyDict.values (unique_docs all_docs)) ->
  last_with_text (page_content d) all_docs = Some d.
Proof.
  unfold PyDict.values. intros HIn.
  apply in_map_iff in HIn as ([key d'] & Heq & HIn). simpl in Heq; subst d'.
  pose proof (unique_docs_entry _ _ _ HIn) as Hlast.
  destruct (last_with_text_text _ _ _ Hlast) as [-> _]. exact Hlast.
Qed.

Lemma unique_docs_values_texts (all_docs : list Document) :
  map page_content (PyDict.values (unique_docs all_docs)) =
  map page_content (keep_first_occurrence [] all_docs).
Proof. now rewrite unique_docs_values_keys, unique_docs_keys. Qed.

Lemma unique_docs_values_NoDup (all_docs : list Document) :
  NoDup (map page_content all_docs) ->
  PyDict.values (unique_docs all_docs) = all_docs.
Proof.
  intros ND. apply same_texts_same_list; [|assumption|].
  - rewrite unique_docs_values_texts.
    rewrite keep_first_occurrence_NoDup; auto.
  - intros d Hd. now apply unique_docs_values_In, last_with_text_text in Hd.
Qed.

(** X1: every chunk of the pool is one of the retrieved chunks, and the
    pool is no longer than the two result sequences together. *)
Theorem hybrid_search_pool_from_results (q : string) (cr br : Retriever) :
  exists pool,
    outcome (_hybrid_search q cr br) = inr pool /\
    (forall d, In d pool -> In d (invoke cr q ++ invoke br q)) /\
    List.length pool <= List.length (invoke cr q) + List.length (invoke br q).
Proof.
  rewrite _hybrid_search_eq. eexists. split; [reflexivity|]. split.
  - intros d Hd. now apply unique_docs_values_In, last_with_text_text in Hd.
  - rewrite <- length_app,
      <- (length_map page_content (PyDict.values _)), unique_docs_values_texts,
      length_map.
    apply keep_first_occurrence_length.
Qed.

(** X2: when no text occurs twice among the retrieved chunks, the pool is
    the dense results followed by the sparse results, unchanged. *)
Theorem hybrid_search_distinct_texts_concat (q : string) (cr br : Retriever) :
  NoDup (map page_content (invoke cr q ++ invoke br q)) ->
  outcome (_hybrid_search q cr br) = inr (invoke cr q ++ invoke br q).
Proof.
  intros ND. rewrite _hybrid_search_eq. unfold outcome. simpl.
  now rewrite unique_docs_values_NoDup.
Qed.

Lemma hybrid_search_distinct_texts_concat_witness :
  outcome (_hybrid_search "capital of France?"
             (fixed_retriever [chunk_A]) (fixed_retriever [chunk_B])) =
  inr (invoke (fixed_retriever [chunk_A]) "capital of France?" ++
       invoke (fixed_retriever [chunk_B]) "capital of France?").
Proof.
  apply (hybrid_search_distinct_texts_concat "capital of France?"
           (fixed_retriever [chunk_A]) (fixed_retriever [chunk_B])).
  repeat constructor; simpl; intuition discriminate.
Defined.

(** X3: the texts of the pool are the distinct dense texts in dense order,
    followed by the distinct sparse texts that no dense chunk carries. *)
Theorem hybrid_search_dense_then_new_sparse (q : string) (cr br : Retriever) :
  exists pool,
    outcome (_hybrid_search q cr br) = inr pool /\
    map page_content pool =
      map page_content (keep_first_occurrence [] (invoke cr q)) ++
      map page_content
        (keep_first_occurrence
           (map page_content (keep_first_occurrence [] (invoke cr q)))
           (invoke br q)).
Proof.
  rewrite _hybrid_search_eq. eexists. split; [reflexivity|].
  now rewrite unique_docs_values_texts, keep_first_occurrence_app, map_app.
Qed.

(** X4: the deduplication is idempotent: a pool put through it again comes
    back unchanged. *)
Theorem hybrid_search_pool_fixed_point (q : string) (cr br : Retriever) :
  exists pool,
    outcome (_hybrid_search q cr br) = inr pool /\
    PyDict.values (unique_docs pool) = pool.
Proof.
  rewrite _hybrid_search_eq. eexists. split; [reflexivity|].
  apply unique_docs_values_NoDup.
  rewrite unique_docs_values_keys. apply (fold_NoDup _ PyDict.empty). constructor.
Qed.

(* ------------------------------------------------------------------ *)
(** * Further properties of the re-ranker *)

Lemma StronglySorted_app_inv {A} (R : A -> A -> Prop) (l1 l2 : list A) :
  StronglySorted R (l1 ++ l2) ->
  forall x y, In x l1 -> In y l2 -> R x y.
Proof.
  induction l1 as [|a l1 IH]; simpl; intros Hs x y Hx Hy; [contradiction|].
  apply StronglySorted_inv in Hs as [Hs Ha].
  destruct Hx as [<- | Hx]; [|now apply IH].
  rewrite Forall_forall in Ha. apply Ha, in_or_app. now right.
Qed.

Lemma Forall2_In_l {A B} (P : A -> B -> Prop) (l : list A) (l' : list B) :
  Forall2 P l l' -> forall x, In x l -> exists y, In y l' /\ P x y.
Proof.
  induction 1 as [|x0 y0 l l' H0 H IH]; intros x Hx; simpl in *; [contradiction|].
  destruct Hx as [<- | Hx]; [eauto|].
  destruct (IH x Hx) as (y & Hy & HP). eauto.
Qed.

Lemma map_snd_combine_firstn {A B} (l : list A) (l' : list B) :
  map snd (combine l l') = firstn (List.length l) l'.
Proof.
  revert l'. induction l as [|a l IH]; intros [|b l']; simpl; try reflexivity.
  now rewrite IH.
Qed.

Section SortedInput.
Context {K A : Type}.
Variable lt : K -> K -> bool.
Variable key : A -> K.

Lemma insort_right_last (x : A) (l : list A) :
  (forall y, In y l -> lt (key x) (key y) = false) ->
  insort_right lt key x l = l ++ [x].
Proof.
  induction l as [|y l IH]; simpl; intros H; [reflexivity|].
  rewrite (H y (or_introl eq_refl)). f_equal. apply IH. auto.
Qed.

Lemma fold_insort_sorted_input (l : list A) : forall sorted,
  StronglySorted (fun a b => lt (key b) (key a) = false) l ->
  (forall a x, In a sorted -> In x l -> lt (key x) (key a) = false) ->
  fold_left (fun s x => insort_right lt key x s) l sorted = sorted ++ l.
Proof.
  induction l as [|x l IH]; intros sorted Hs Hbefore; simpl.
  - now rewrite app_nil_r.
  - apply StronglySorted_inv in Hs as [Hs Hx].
    rewrite insort_right_last by (intros y Hy; apply Hbefore; simpl; auto).
    rewrite IH; [now rewrite <- app_assoc | assumption |].
    intros a z Ha Hz. apply in_app_or in Ha as [Ha | [<- | []]].
    + apply Hbefore; simpl; auto.
    + rewrite Forall_forall in Hx. now apply Hx.
Qed.

(** A list whose keys never go up is left as it is by the descending
    sort. *)
Lemma list_sort_reverse_sorted_input (l : list A) :
  StronglySorted (fun a b => lt (key a) (key b) = false) l ->
  list_sort lt key true l = l.
Proof.
  intros Hs. unfold list_sort, sort_ascending.
  rewrite fold_insort_sorted_input.
  - simpl. apply rev_involutive.
  - now apply (StronglySorted_rev (fun a b => lt (key a) (key b) = false)).
  - intros a x [].
Qed.
End SortedInput.

Lemma combine_sorted_fst {A B} (R : A -> A -> Prop) (l : list A) (l' : list B) :
  StronglySorted R l ->
  StronglySorted (fun p q => R (fst p) (fst q)) (combine l l').
Proof.
  intros Hs. revert l'. induction Hs as [|a l Hs IH Ha]; intros [|b l']; simpl;
    try constructor; [apply IH|].
  rewrite Forall_forall in *. intros [a' b'] HIn. simpl.
  apply Ha. eapply in_combine_l, HIn.
Qed.

Section RerankMore.
Context {score : Type}.
Variable score_lt : score -> score -> bool.

(** X5: when the model returns one score per chunk and the scores never go
    up along the pool (for instance when they are all equal), the window
    is the first three chunks of the pool, in pool order. *)
Theorem rerank_sorted_scores_keep_pool_order (m : @CrossEncoder score)
        (q : string) (docs : list Document) :
  List.length (predict m (query_pairs q docs)) = List.length docs ->
  StronglySorted (fun a b => score_lt a b = false)
                 (predict m (query_pairs q docs)) ->
  outcome (_rerank_documents score_lt (mkQueryAndDocs q docs) m) =
  inr (firstn 3 docs).
Proof.
  intros Hlen Hs. rewrite _rerank_documents_outcome. f_equal.
  unfold scored_docs. rewrite list_sort_reverse_sorted_input.
  - rewrite <- firstn_map, map_snd_combine_firstn, Hlen. now rewrite firstn_all.
  - now apply (combine_sorted_fst (fun a b => score_lt a b = false)).
Qed.

(** X6: a pool of at most three chunks, scored one score per chunk, comes
    back whole: the window is a reordering of the pool. *)
Theorem rerank_small_pool_is_permuted (m : @CrossEncoder score)
        (q : string) (docs : list Document) :
  List.length docs <= 3 ->
  List.length (predict m (query_pairs q docs)) = List.length docs ->
  exists window,
    outcome (_rerank_documents score_lt (mkQueryAndDocs q docs) m) = inr window /\
    Permutation docs window.
Proof.
  intros Hsmall Hlen. eexists. split; [apply _rerank_documents_outcome|].
  rewrite firstn_all2 by (rewrite scored_docs_length; lia).
  unfold scored_docs.
  rewrite <- (list_sort_perm score_lt fst true), map_snd_combine_firstn, Hlen.
  now rewrite firstn_all.
Qed.

(** Every chunk of the window is a chunk of the pool. *)
Lemma rerank_window_incl (scores : list score) (docs : list Document) :
  forall d, In d (map snd (firstn 3 (scored_docs score_lt scores docs))) ->
            In d docs.
Proof.
  intros d Hd. apply in_map_iff in Hd as ([s d'] & Heq & HIn).
  simpl in Heq; subst d'.
  assert (In (s, d) (scored_docs score_lt scores docs)) as HIn'.
  { rewrite <- (firstn_skipn 3). apply in_or_app. now left. }
  unfold scored_docs in HIn'.
  apply (Permutation_in _ (Permutation_sym (list_sort_perm score_lt fst true _)))
    in HIn'.
  eapply in_combine_r, HIn'.
Qed.

Hypothesis score_lt_asym :
  forall a b, score_lt a b = true -> score_lt b a = false.
Hypothesis score_lt_cotrans :
  forall a b c, score_lt a b = true -> score_lt a c = true \/ score_lt c b = true.

(** X7: the window holds the best-scored chunks.  Read as pool positions,
    the scored chunks split into the window and the rest, and no chunk of
    the rest has a score above the score of a window chunk. *)
Theorem rerank_window_holds_top_scores (m : @CrossEncoder score)
        (q : string) (docs : list Document) :
  let scores := predict m (query_pairs q docs) in
  exists window kept left_out,
    outcome (_rerank_documents score_lt (mkQueryAndDocs q docs) m) = inr window /\
    at_positions docs kept window /\
    Permutation (kept ++ left_out)
      (seq 0 (Nat.min (List.length scores) (List.length docs))) /\
    forall i j si sj,
      In i kept -> In j left_out ->
      nth_error scores i = Some si -> nth_error scores j = Some sj ->
      score_lt si sj = false.
Proof.
  intros scores.
  destruct (list_sort_reverse_positions score_lt fst
              score_lt_asym score_lt_cotrans (combine scores docs))
    as (idx & Hperm & Hat & Hsorted).
  exists (map snd (firstn 3 (scored_docs score_lt scores docs))),
         (firstn 3 idx), (skipn 3 idx).
  split; [apply _rerank_documents_outcome|]. split; [|split].
  - apply Forall2_map_r, (Forall2_firstn _ 3).
    eapply Forall2_impl; [|exact Hat].
    intros i [s d] H. now apply nth_error_combine in H.
  - rewrite firstn_skipn, <- length_combine. exact Hperm.
  - intros i j si sj Hi Hj Hsi Hsj.
    rewrite <- (firstn_skipn 3 idx) in Hsorted.
    pose proof (StronglySorted_app_inv _ _ _ Hsorted i j Hi Hj) as Hij.
    assert (forall n s, In n idx -> nth_error scores n = Some s ->
              exists d, nth_error (combine scores docs) n = Some (s, d)) as Hnth.
    { intros n s Hn Hs.
      destruct (Forall2_In_l _ _ _ Hat n Hn) as ([s' d] & _ & Hx).
      exists d. rewrite Hx. apply nth_error_combine in Hx as [Hx _]. congruence. }
    destruct (Hnth i si) as (di & Hdi);
      [rewrite <- (firstn_skipn 3 idx); apply in_or_app; now left | assumption |].
    destruct (Hnth j sj) as (dj & Hdj);
      [rewrite <- (firstn_skipn 3 idx); apply in_or_app; now right | assumption |].
    now destruct (Hij _ _ Hdi Hdj) as [H _].
Qed.
End RerankMore.

Lemma rerank_sorted_scores_keep_pool_order_witness :
  outcome (_rerank_documents Z.ltb
             (mkQueryAndDocs "q" [chunk_A; chunk_B; chunk_A'; chunk_B])
             (fixed_encoder [9; 7; 7; 2]%Z)) =
  inr (firstn 3 [chunk_A; chunk_B; chunk_A'; chunk_B]).
Proof.
  apply (rerank_sorted_scores_keep_pool_order Z.ltb
           (fixed_encoder [9; 7; 7; 2]%Z) "q"
           [chunk_A; chunk_B; chunk_A'; chunk_B]).
  - reflexivity.
  - repeat constructor.
Defined.

Lemma rerank_small_pool_is_permuted_witness :
  exists window,
    outcome (_rerank_documents Z.ltb
               (mkQueryAndDocs "q" [chunk_A; chunk_B])
               (fixed_encoder [3; 9]%Z)) = inr window /\
    Permutation [chunk_A; chunk_B] window.
Proof.
  apply (rerank_small_pool_is_permuted Z.ltb (fixed_encoder [3; 9]%Z) "q"
           [chunk_A; chunk_B]).
  - simpl. lia.
  - reflexivity.
Defined.

Lemma rerank_window_holds_top_scores_witness :
  exists window kept left_out,
    outcome (_rerank_documents Z.ltb
               (mkQueryAndDocs "q" [chunk_A; chunk_B; chunk_A'; chunk_B])
               (fixed_encoder [2; 7; 9; 7]%Z)) = inr window /\
    at_positions [chunk_A; chunk_B; chunk_A'; chunk_B] kept window /\
    Permutation (kept ++ left_out)
      (seq 0 (Nat.min (List.length [2; 7; 9; 7]%Z)
                      (List.length [chunk_A; chunk_B; chunk_A'; chunk_B]))) /\
    forall i j si sj,
      In i kept -> In j left_out ->
      nth_error [2; 7; 9; 7]%Z i = Some si ->
      nth_error [2; 7; 9; 7]%Z j = Some sj ->
      Z.ltb si sj = false.
Proof.
  apply (rerank_window_holds_top_scores Z.ltb Zltb_asym Zltb_cotrans
           (fixed_encoder [2; 7; 9; 7]%Z) "q"
           [chunk_A; chunk_B; chunk_A'; chunk_B]).
Defined.

(* ------------------------------------------------------------------ *)
(** * Further properties of context assembly and of the chain *)

Lemma str_append_assoc (a b c : string) :
  ((a ++ b) ++ c)%string = (a ++ b ++ c)%string.
Proof. induction a as [|ch a IH]; simpl; [reflexivity | now rewrite IH]. Qed.

Lemma str_length_append (a b : string) :
  String.length (a ++ b) = String.length a + String.length b.
Proof. induction a as [|ch a IH]; simpl; [reflexivity | now rewrite IH]. Qed.

(** X8: assembling two windows laid end to end gives the two assembled
    contexts with one blank line between them. *)
Theorem format_docs_app (w1 w2 : list Document) :
  w1 <> [] -> w2 <> [] ->
  _format_docs (w1 ++ w2) =
  (_format_docs w1 ++ (newline ++ newline) ++ _format_docs w2)%string.
Proof.
  intros H1 H2. destruct w2 as [|d2 w2]; [congruence|]. clear H2.
  induction w1 as [|d w1 IH]; [congruence|]. clear H1.
  destruct w1 as [|d1 w1].
  - reflexivity.
  - change (_format_docs ((d :: d1 :: w1) ++ d2 :: w2))
      with (page_content d ++ (newline ++ newline) ++
            _format_docs ((d1 :: w1) ++ d2 :: w2))%string.
    rewrite IH by discriminate.
    change (_format_docs (d :: d1 :: w1))
      with (page_content d ++ (newline ++ newline) ++
            _format_docs (d1 :: w1))%string.
    now rewrite !str_append_assoc.
Qed.

Lemma format_docs_app_witness :
  _format_docs ([chunk_A] ++ [chunk_B; chunk_A']) =
  (_format_docs [chunk_A] ++ (newline ++ newline) ++
   _format_docs [chunk_B; chunk_A'])%string.
Proof.
  apply (format_docs_app [chunk_A] [chunk_B; chunk_A']); discriminate.
Defined.

(** X9: the assembled context of a window that is not empty is as long as
    its texts together plus two characters for each gap between them. *)
Theorem format_docs_length (w : list Document) :
  w <> [] ->
  String.length (_format_docs w) =
  list_sum (map (fun d => String.length (page_content d)) w) +
  2 * (List.length w - 1).
Proof.
  intros H. induction w as [|d w IH]; [congruence|]. clear H.
  destruct w as [|d1 w].
  - change (_format_docs [d]) with (page_content d).
    unfold list_sum. cbn [map fold_right List.length]. lia.
  - change (_format_docs (d :: d1 :: w))
      with (page_content d ++ (newline ++ newline) ++
            _format_docs (d1 :: w))%string.
    rewrite !str_length_append, IH by discriminate.
    change (String.length newline) with 1.
    unfold list_sum. cbn [map fold_right List.length]. lia.
Qed.

Lemma format_docs_length_witness :
  String.length (_format_docs [chunk_A; chunk_B]) =
  list_sum (map (fun d => String.length (page_content d)) [chunk_A; chunk_B]) +
  2 * (List.length [chunk_A; chunk_B] - 1).
Proof. apply (format_docs_length [chunk_A; chunk_B]). discriminate. Defined.

(** ** The chain sees texts only *)

Lemma bind_assoc {A B C} (m : M A) (f : A -> M B) (g : B -> M C) :
  bind (bind m f) g = bind m (fun x => bind (f x) g).
Proof.
  destruct m as [[r | a] tr]; simpl; [reflexivity|].
  destruct (f a) as [[r | b] tr']; simpl; [reflexivity|].
  destruct (g b) as [res tr'']. now rewrite app_assoc.
Qed.

Lemma keep_first_occurrence_texts (l l' : list Document) : forall seen,
  map page_content l = map page_content l' ->
  map page_content (keep_first_occurrence seen l) =
  map page_content (keep_first_occurrence seen l').
Proof.
  revert l'. induction l as [|x l IH]; intros [|x' l'] seen H; simpl in *;
    try discriminate; [reflexivity|].
  injection H as Hx H. rewrite Hx.
  destruct (existsb _ seen); simpl; [|rewrite Hx; f_equal]; now apply IH.
Qed.

Lemma combine_map_r {A B C} (f : B -> C) (l : list A) (l' : list B) :
  map (fun p => (fst p, f (snd p))) (combine l l') = combine l (map f l').
Proof.
  revert l'. induction l as [|a l IH]; intros [|b l']; simpl; try reflexivity.
  now rewrite IH.
Qed.

Lemma query_pairs_texts (q : string) (docs : list Document) :
  query_pairs q docs = map (pair q) (map page_content docs).
Proof. unfold query_pairs. now rewrite map_map. Qed.

Section ChainFacts.
Context {score : Type}.
Variable score_lt : score -> score -> bool.

(** The texts of the window, computed from the texts of the pool. *)
Lemma window_texts (scores : list score) (docs : list Document) :
  map page_content (map snd (firstn 3 (scored_docs score_lt scores docs))) =
  map snd (firstn 3 (list_sort score_lt fst true
                       (combine scores (map page_content docs)))).
Proof.
  unfold scored_docs.
  rewrite <- (combine_map_r page_content),
    <- (list_sort_map score_lt fst fst
          (fun p : score * Document => (fst p, page_content (snd p))))
    by reflexivity.
  rewrite firstn_map, !map_map. reflexivity.
Qed.

Lemma chain_eq (ce : @CrossEncoder score) (cr br : Retriever) (q : string) :
  let pool := PyDict.values (unique_docs (invoke cr q ++ invoke br q)) in
  chain score_lt ce cr br q =
  (inr (_format_docs
          (map snd (firstn 3
             (scored_docs score_lt (predict ce (query_pairs q pool)) pool)))),
   [RetrieverInvoke Dense q; RetrieverInvoke Sparse q] ++
   match pool with
   | [] => []
   | _ :: _ => [CrossEncoderPredict (query_pairs q pool)]
   end).
Proof.
  intros pool. unfold chain. rewrite _hybrid_search_eq. fold pool.
  clearbody pool. destruct pool as [|d rest].
  - rewrite scored_docs_nil. reflexivity.
  - unfold bind at 1. rewrite _rerank_documents_eq by discriminate.
    reflexivity.
Qed.

(** X10: the assembled context and the calls made depend on the retrieved
    chunks through their texts only: two pairs of retrievers whose results
    carry the same texts in the same order give the same chain result,
    whatever the metadata. *)
Theorem chain_depends_on_texts_only (ce : @CrossEncoder score)
        (cr br cr' br' : Retriever) (q : string) :
  map page_content (invoke cr q) = map page_content (invoke cr' q) ->
  map page_content (invoke br q) = map page_content (invoke br' q) ->
  chain score_lt ce cr br q = chain score_lt ce cr' br' q.
Proof.
  intros Hc Hb. rewrite !chain_eq.
  set (pool := PyDict.values (unique_docs (invoke cr q ++ invoke br q))).
  set (pool' := PyDict.values (unique_docs (invoke cr' q ++ invoke br' q))).
  assert (map page_content pool = map page_content pool') as Htexts.
  { unfold pool, pool'. rewrite !unique_docs_values_texts.
    apply keep_first_occurrence_texts. now rewrite !map_app, Hc, Hb. }
  assert (query_pairs q pool = query_pairs q pool') as Hpairs
    by now rewrite !query_pairs_texts, Htexts.
  f_equal.
  - f_equal. unfold _format_docs. now rewrite !window_texts, Hpairs, Htexts.
  - f_equal. rewrite Hpairs.
    destruct pool, pool'; try discriminate; reflexivity.
Qed.
End ChainFacts.

Lemma chain_depends_on_texts_only_witness :
  chain Z.ltb (fixed_encoder [3; 9]%Z)
        (fixed_retriever [chunk_A; chunk_B]) (fixed_retriever [chunk_A']) "q" =
  chain Z.ltb (fixed_encoder [3; 9]%Z)
        (fixed_retriever [chunk_A'; chunk_B]) (fixed_retriever [chunk_A]) "q".
Proof.
  apply (chain_depends_on_texts_only Z.ltb (fixed_encoder [3; 9]%Z)
           (fixed_retriever [chunk_A; chunk_B]) (fixed_retriever [chunk_A'])
           (fixed_retriever [chunk_A'; chunk_B]) (fixed_retriever [chunk_A]) "q");
    reflexivity.
Defined.

(* ------------------------------------------------------------------ *)
(** * Further properties of [run_rag_pipeline] *)

Lemma bind_value {A B} (a : A) (tr : list Event) (f : A -> M B) :
  bind (inr a, tr) f = (fst (f a), tr ++ snd (f a)).
Proof. unfold bind. now destruct (f a). Qed.

Lemma bind_ret_r {A} (m : M A) : bind m ret = m.
Proof. destruct m as [[r | a] tr]; simpl; [|rewrite app_nil_r]; reflexivity. Qed.

Section PipelineMore.
Context {score : Type}.
Variable score_lt : score -> score -> bool.

(** Once everything is loaded, the run is the chain followed by the call
    of the chat backend. *)
Lemma run_rag_pipeline_loaded (rt : @Runtime score) (disk : Disk) (q : string)
      (llm : ChatBackend) (ce : @CrossEncoder score) (vs bm : Retriever)
      (f : list Document) :
  HuggingFaceEmbeddings_load rt = inr tt ->
  CrossEncoder_load rt = inr ce ->
  Chroma_load rt (vectorstore disk) = inr vs ->
  bm25_index disk = Some f ->
  pickle_load rt f = inr bm ->
  run_rag_pipeline score_lt rt disk q llm =
  (context <- chain score_lt ce (set_k 5 vs) (set_k 5 bm) q ;;
   invoke_llm llm (RAG_PROMPT context q)).
Proof.
  intros Hemb Hce Hvs Hf Hbm. unfold run_rag_pipeline, load_bm25, chain.
  rewrite Hemb, Hce, Hvs, Hf, Hbm. unfold lift. rewrite !bind_ret.
  rewrite _hybrid_search_eq, !bind_value.
  set (pool := PyDict.values (unique_docs _)). clearbody pool.
  assert (exists w tr,
            _rerank_documents score_lt (mkQueryAndDocs q pool) ce = (inr w, tr))
    as (w & tr & ->).
  { destruct pool as [|d rest].
    - rewrite _rerank_documents_empty. eauto.
    - rewrite _rerank_documents_eq by discriminate. eauto. }
  rewrite !bind_value, bind_ret_r. unfold ret. cbn [fst snd].
  now rewrite bind_value, app_nil_r, <- app_assoc.
Qed.

(** A run that returns an answer, traced back through its stages. *)
Lemma run_rag_pipeline_answer (rt : @Runtime score) (disk : Disk)
      (q : string) (llm : ChatBackend) (answer : string) (tr : list Event) :
  run_rag_pipeline score_lt rt disk q llm = (inr answer, tr) ->
  exists ce vs bm f pool window,
    CrossEncoder_load rt = inr ce /\
    Chroma_load rt (vectorstore disk) = inr vs /\
    bm25_index disk = Some f /\
    pickle_load rt f = inr bm /\
    outcome (_hybrid_search q (set_k 5 vs) (set_k 5 bm)) = inr pool /\
    outcome (_rerank_documents score_lt (mkQueryAndDocs q pool) ce) =
      inr window /\
    tr = [RetrieverInvoke Dense q; RetrieverInvoke Sparse q] ++
         match pool with
         | [] => []
         | _ :: _ => [CrossEncoderPredict (query_pairs q pool)]
         end ++
         [LLMInvoke (RAG_PROMPT (_format_docs window) q)] /\
    complete llm (RAG_PROMPT (_format_docs window) q) = inr answer.
Proof.
  destruct (HuggingFaceEmbeddings_load rt) as [e | []] eqn:Hemb.
  { unfold run_rag_pipeline. rewrite Hemb. discriminate. }
  destruct (CrossEncoder_load rt) as [e | ce] eqn:Hce.
  { unfold run_rag_pipeline. rewrite Hemb, Hce. discriminate. }
  destruct (Chroma_load rt (vectorstore disk)) as [e | vs] eqn:Hvs.
  { unfold run_rag_pipeline. rewrite Hemb, Hce, Hvs. discriminate. }
  destruct (bm25_index disk) as [f|] eqn:Hf.
  2:{ unfold run_rag_pipeline, load_bm25. rewrite Hemb, Hce, Hvs, Hf.
      discriminate. }
  destruct (pickle_load rt f) as [e | bm] eqn:Hbm.
  { unfold run_rag_pipeline, load_bm25. rewrite Hemb, Hce, Hvs, Hf, Hbm.
    discriminate. }
  rewrite (run_rag_pipeline_loaded rt disk q llm ce vs bm f Hemb Hce Hvs Hf Hbm).
  rewrite chain_eq.
  set (pool := PyDict.values
                 (unique_docs (invoke (set_k 5 vs) q ++ invoke (set_k 5 bm) q))).
  set (window := map snd (firstn 3
                   (scored_docs score_lt (predict ce (query_pairs q pool)) pool))).
  intros Hrun. exists ce, vs, bm, f, pool, window.
  do 5 (split; [first [assumption | reflexivity]|]).
  split; [apply _rerank_documents_outcome|].
  unfold bind, invoke_llm in Hrun.
  destruct (complete llm (RAG_PROMPT (_format_docs window) q)) as [e | a];
    [discriminate|].
  injection Hrun as <- <-. split; reflexivity.
Qed.

(** X11: an answer returned by a run is the completion the chat backend
    gave for the prompt assembled from the window that the re-ranker
    selected from the pool that the hybrid search built out of the two
    loaded retrievers; the calls of such a run are the dense retriever, the
    sparse retriever, the cross-encoder if the pool is not empty, and last
    the chat backend, once. *)
Theorem run_rag_pipeline_answer_provenance (rt : @Runtime score) (disk : Disk)
        (q : string) (llm : ChatBackend) (answer : string) :
  outcome (run_rag_pipeline score_lt rt disk q llm) = inr answer ->
  exists ce vs bm f pool window,
    CrossEncoder_load rt = inr ce /\
    Chroma_load rt (vectorstore disk) = inr vs /\
    bm25_index disk = Some f /\
    pickle_load rt f = inr bm /\
    outcome (_hybrid_search q (set_k 5 vs) (set_k 5 bm)) = inr pool /\
    outcome (_rerank_documents score_lt (mkQueryAndDocs q pool) ce) =
      inr window /\
    trace (run_rag_pipeline score_lt rt disk q llm) =
      [RetrieverInvoke Dense q; RetrieverInvoke Sparse q] ++
      match pool with
      | [] => []
      | _ :: _ => [CrossEncoderPredict (query_pairs q pool)]
      end ++
      [LLMInvoke (RAG_PROMPT (_format_docs window) q)] /\
    complete llm (RAG_PROMPT (_format_docs window) q) = inr answer.
Proof.
  destruct (run_rag_pipeline score_lt rt disk q llm) as [o tr] eqn:Hrun.
  unfold outcome, trace. simpl. intros ->.
  exact (run_rag_pipeline_answer rt disk q llm answer tr Hrun).
Qed.

(** C7 (amended): with the models loaded, a failing load of an index ends
    the run with the exception of that load and an empty trace: the
    exception of the vector-store constructor, [FileNotFoundError] for a
    missing BM25 pickle, or the exception of unpickling.  No retriever, no
    model and no backend is called, so nothing falls back to one source.
    The code checks nothing else: when both loads return, the run goes on
    to retrieval, whatever the vector store holds. *)
Theorem index_load_failure_ends_run (rt : @Runtime score) (disk : Disk)
        (q : string) (llm : ChatBackend) (ce : @CrossEncoder score) :
  HuggingFaceEmbeddings_load rt = inr tt ->
  CrossEncoder_load rt = inr ce ->
  (forall e,
      Chroma_load rt (vectorstore disk) = inl e ->
      run_rag_pipeline score_lt rt disk q llm =
      (inl (Raise LoadVectorstore e), [])) /\
  (forall vs,
      Chroma_load rt (vectorstore disk) = inr vs ->
      bm25_index disk = None ->
      run_rag_pipeline score_lt rt disk q llm =
      (inl (Raise LoadBM25 (FileNotFoundError BM25_INDEX_PATH)), [])) /\
  (forall vs f e,
      Chroma_load rt (vectorstore disk) = inr vs ->
      bm25_index disk = Some f ->
      pickle_load rt f = inl e ->
      run_rag_pipeline score_lt rt disk q llm =
      (inl (Raise LoadBM25 e), [])) /\
  (forall vs f bm,
      Chroma_load rt (vectorstore disk) = inr vs ->
      bm25_index disk = Some f ->
      pickle_load rt f = inr bm ->
      exists rest,
        trace (run_rag_pipeline score_lt rt disk q llm) =
        RetrieverInvoke Dense q :: rest).
Proof.
  intros Hemb Hce. repeat split.
  - intros e Hvs. unfold run_rag_pipeline. now rewrite Hemb, Hce, Hvs.
  - intros vs Hvs Hnone. unfold run_rag_pipeline, load_bm25.
    now rewrite Hemb, Hce, Hvs, Hnone.
  - intros vs f e Hvs Hf Hbm. unfold run_rag_pipeline, load_bm25.
    now rewrite Hemb, Hce, Hvs, Hf, Hbm.
  - intros vs f bm Hvs Hf Hbm.
    rewrite (run_rag_pipeline_loaded rt disk q llm ce vs bm f Hemb Hce Hvs Hf Hbm).
    rewrite chain_eq, bind_value. unfold trace. simpl. eauto.
Qed.
End PipelineMore.

(* ------------------------------------------------------------------ *)
(** * Further properties of ingestion *)

(** [str.endswith] in the model is what Python computes. *)
Lemma substring_0_length (s : string) : String.substring 0 (String.length s) s = s.
Proof. induction s as [|c s IH]; simpl; [reflexivity | now rewrite IH]. Qed.

Lemma substring_skip_prefix (p suf : string) :
  String.substring (String.length p) (String.length suf) (p ++ suf) = suf.
Proof.
  induction p as [|c p IH]; simpl; [apply substring_0_length | exact IH].
Qed.

Lemma substring_split (s : string) : forall n,
  n <= String.length s ->
  s = (String.substring 0 n s ++
       String.substring n (String.length s - n) s)%string.
Proof.
  induction s as [|c s IH]; intros [|n] Hn; simpl in *; try reflexivity;
    try lia.
  - now rewrite substring_0_length.
  - f_equal. apply IH. lia.
Qed.

Lemma endswith_spec (suffix s : string) :
  endswith suffix s = true <-> exists p, s = (p ++ suffix)%string.
Proof.
  unfold endswith. rewrite andb_true_iff, Nat.leb_le, String.eqb_eq. split.
  - intros [Hle Hsub].
    exists (String.substring 0 (String.length s - String.length suffix) s).
    pose proof (substring_split s (String.length s - String.length suffix)
                  ltac:(lia)) as H.
    replace (String.length s - (String.length s - String.length suffix))
      with (String.length suffix) in H by lia.
    now rewrite Hsub in H.
  - intros [p ->]. rewrite str_length_append. split; [lia|].
    replace (String.length p + String.length suffix - String.length suffix)
      with (String.length p) by lia.
    apply substring_skip_prefix.
Qed.

Lemma load_file_acc (libs : IngestLibs) (acc : list Document) (f : CorpusFile) :
  load_file libs acc f = acc ++ load_file libs [] f.
Proof.
  unfold load_file.
  destruct (startswith "." (file_name f)); [now rewrite app_nil_r|].
  destruct (endswith ".pdf" (file_name f)).
  { destruct (PyPDFLoader_load libs f); [now rewrite app_nil_r | reflexivity]. }
  destruct (endswith ".txt" (file_name f)).
  { destruct (TextLoader_load libs f); [now rewrite app_nil_r | reflexivity]. }
  now rewrite app_nil_r.
Qed.

Lemma fold_load_file (libs : IngestLibs) (files : list CorpusFile) :
  forall acc,
    fold_left (load_file libs) files acc =
    acc ++ List.concat (map (load_file libs []) files).
Proof.
  induction files as [|f files IH]; intros acc; simpl.
  - now rewrite app_nil_r.
  - now rewrite IH, load_file_acc, <- app_assoc.
Qed.

(** X12: the documents loaded from a directory are the documents of its
    files, file by file in directory order; a directory listed in two
    parts loads as the two parts one after the other. *)
Theorem load_documents_per_file (libs : IngestLibs) (files1 files2 : list CorpusFile) :
  load_documents libs (Some (files1 ++ files2)) =
  load_documents libs (Some files1) ++ load_documents libs (Some files2) /\
  load_documents libs (Some files1) =
  List.concat (map (load_file libs []) files1).
Proof.
  unfold load_documents. rewrite !fold_load_file. simpl.
  now rewrite map_app, concat_app.
Qed.

(** X13: a hidden file, a file that is neither [.pdf] nor [.txt], and a file
    whose loader raises leave no trace: the result is the same as without
    the file, and the files after it are still loaded. *)
Theorem load_documents_skips_file (libs : IngestLibs)
        (before after : list CorpusFile) (f : CorpusFile) :
  startswith "." (file_name f) = true \/
  (endswith ".pdf" (file_name f) = false /\
   endswith ".txt" (file_name f) = false) \/
  (endswith ".pdf" (file_name f) = true /\
   exists e, PyPDFLoader_load libs f = inl e) \/
  (endswith ".pdf" (file_name f) = false /\
   endswith ".txt" (file_name f) = true /\
   exists e, TextLoader_load libs f = inl e) ->
  load_documents libs (Some (before ++ f :: after)) =
  load_documents libs (Some (before ++ after)).
Proof.
  intros H. unfold load_documents. rewrite !fold_load_file. simpl.
  rewrite !map_app, !concat_app. simpl.
  replace (load_file libs [] f) with (@nil Document); [reflexivity|].
  unfold load_file.
  destruct H as [-> | [[-> ->] | [[-> [e ->]] | (-> & -> & e & ->)]]];
    try reflexivity;
    now destruct (startswith "." (file_name f)).
Qed.

Lemma load_documents_skips_file_witness :
  load_documents sample_libs
    (Some ([mkCorpusFile "a.txt" "alpha"] ++
           mkCorpusFile ".hidden.pdf" "secret" :: [mkCorpusFile "b.pdf" "beta"])) =
  load_documents sample_libs
    (Some ([mkCorpusFile "a.txt" "alpha"] ++ [mkCorpusFile "b.pdf" "beta"])).
Proof.
  apply (load_documents_skips_file sample_libs
           [mkCorpusFile "a.txt" "alpha"] [mkCorpusFile "b.pdf" "beta"]
           (mkCorpusFile ".hidden.pdf" "secret")).
  left. reflexivity.
Defined.

Lemma clear_indexes_eq (disk : Disk) :
  clear_indexes disk = mkDisk (corpus disk) (Some []) None.
Proof. destruct disk as [c [v|] [b|]]; reflexivity. Qed.

(** The chunks read back from their texts and metadata. *)
Lemma chunks_round_trip (chunks : list Document) :
  map (fun tm => mkDocument (fst tm) (snd tm))
      (combine (map page_content chunks) (map metadata chunks)) = chunks.
Proof.
  induction chunks as [|[t m] chunks IH]; simpl; [reflexivity | now rewrite IH].
Qed.

(** All the ways a run of ingestion can end. *)
Lemma run_ingestion_cases (libs : IngestLibs) (disk : Disk) :
  let chunks := split_documents libs (load_documents libs (corpus disk)) in
  let cleared := mkDisk (corpus disk) (Some []) None in
  (run_ingestion libs disk = (inr tt, cleared) /\
   (load_documents libs (corpus disk) = [] \/ chunks = [] \/
    exists e, HuggingFaceEmbeddings_init libs = inl e)) \/
  (exists e, run_ingestion libs disk = (inl e, cleared) /\
             load_documents libs (corpus disk) <> [] /\ chunks <> [] /\
             HuggingFaceEmbeddings_init libs = inr tt /\
             Chroma_from_documents libs chunks = inl e) \/
  (run_ingestion libs disk = (inr tt, mkDisk (corpus disk) (Some chunks) None) /\
   chunks <> [] /\
   exists e, BM25Retriever_from_texts libs (map page_content chunks)
                                      (map metadata chunks) = inl e) \/
  (run_ingestion libs disk =
     (inr tt, mkDisk (corpus disk) (Some chunks) (Some chunks)) /\
   chunks <> []).
Proof.
  intros chunks cleared. unfold run_ingestion. rewrite clear_indexes_eq.
  simpl corpus. fold cleared.
  destruct (load_documents libs (corpus disk)) as [|d docs] eqn:Hdocs;
    [left; auto|].
  fold chunks. destruct chunks as [|c rest] eqn:Hchunks; [left; auto|].
  destruct (HuggingFaceEmbeddings_init libs) as [e | []] eqn:Hemb;
    [left; eauto|].
  unfold create_vectorstore.
  destruct (Chroma_from_documents libs (c :: rest)) as [e | u] eqn:Hvs.
  { right. left. exists e. repeat split; auto; discriminate. }
  unfold create_bm25_index. simpl bm25_index. simpl corpus. simpl vectorstore.
  destruct (BM25Retriever_from_texts libs _ _) as [e | u'] eqn:Hbm.
  - right. right. left. repeat split; [discriminate | eauto].
  - right. right. right. rewrite chunks_round_trip. split; [reflexivity | discriminate].
Qed.

Lemma run_ingestion_corpus_only (libs : IngestLibs) (disk disk' : Disk) :
  corpus disk = corpus disk' ->
  run_ingestion libs disk = run_ingestion libs disk'.
Proof.
  intros H. unfold run_ingestion. now rewrite !clear_indexes_eq, H.
Qed.

(** X14: ingestion is a full rebuild: what a run returns and leaves on disk
    depends on the corpus only, not on what the index locations held
    before. *)
Theorem run_ingestion_ignores_old_indexes (libs : IngestLibs) (disk disk' : Disk) :
  corpus disk = corpus disk' ->
  run_ingestion libs disk = run_ingestion libs disk'.
Proof. apply run_ingestion_corpus_only. Qed.

Lemma run_ingestion_ignores_old_indexes_witness :
  run_ingestion sample_libs disk_built = run_ingestion sample_libs disk_cleared.
Proof.
  apply (run_ingestion_ignores_old_indexes sample_libs disk_built disk_cleared).
  reflexivity.
Defined.

(** X15: a run never changes the corpus, however it ends: it returns or
    raises with the corpus directory as it found it. *)
Theorem run_ingestion_keeps_corpus (libs : IngestLibs) (disk : Disk) :
  corpus (snd (run_ingestion libs disk)) = corpus disk.
Proof.
  destruct (run_ingestion_cases libs disk)
    as [[-> _] | [(e & -> & _) | [[-> _] | [-> _]]]]; reflexivity.
Qed.

(** X16: when documents are loaded, chunks result and every library call
    succeeds, the run returns normally and both indexes hold exactly the
    chunks of the split, in the same order. *)
Theorem run_ingestion_builds_both_indexes (libs : IngestLibs) (disk : Disk) :
  let chunks := split_documents libs (load_documents libs (corpus disk)) in
  load_documents libs (corpus disk) <> [] ->
  chunks <> [] ->
  HuggingFaceEmbeddings_init libs = inr tt ->
  Chroma_from_documents libs chunks = inr tt ->
  BM25Retriever_from_texts libs (map page_content chunks)
                           (map metadata chunks) = inr tt ->
  run_ingestion libs disk =
  (inr tt, mkDisk (corpus disk) (Some chunks) (Some chunks)).
Proof.
  intros chunks Hdocs Hchunks Hemb Hvs Hbm. subst chunks.
  destruct (run_ingestion_cases libs disk)
    as [[_ [H | [H | [e H]]]] | [(e & _ & _ & _ & _ & H) | [(_ & _ & e & H) | [H _]]]];
    congruence.
Qed.

Lemma run_ingestion_builds_both_indexes_witness :
  run_ingestion sample_libs disk_with_corpus =
  (inr tt,
   mkDisk (corpus disk_with_corpus)
     (Some (split_documents sample_libs
              (load_documents sample_libs (corpus disk_with_corpus))))
     (Some (split_documents sample_libs
              (load_documents sample_libs (corpus disk_with_corpus))))).
Proof.
  apply (run_ingestion_builds_both_indexes sample_libs disk_with_corpus);
    (reflexivity || discriminate).
Defined.

(** X17: of the failures of the loaders, the embedding model, the creation
    of the vector store and the BM25 build, only the creation of the vector
    store makes the run raise; the others are swallowed.  When the run
    raises, both indexes are left empty. *)
Theorem run_ingestion_raises_only_from_vectorstore
        (libs : IngestLibs) (disk : Disk) (e : PyException) :
  fst (run_ingestion libs disk) = inl e ->
  Chroma_from_documents libs
    (split_documents libs (load_documents libs (corpus disk))) = inl e /\
  indexes_empty (snd (run_ingestion libs disk)).
Proof.
  intros H.
  destruct (run_ingestion_cases libs disk)
    as [[Hr _] | [(e' & Hr & _ & _ & _ & Hvs) | [[Hr _] | [Hr _]]]];
    rewrite Hr in *; simpl in H; try discriminate.
  injection H as <-. split; [exact Hvs | split; reflexivity].
Qed.

Lemma run_ingestion_raises_only_from_vectorstore_witness :
  Chroma_from_documents libs_chroma_fails
    (split_documents libs_chroma_fails
       (load_documents libs_chroma_fails (corpus disk_with_corpus))) =
    inl (Exception "vector store is locked") /\
  indexes_empty (snd (run_ingestion libs_chroma_fails disk_with_corpus)).
Proof.
  apply (run_ingestion_raises_only_from_vectorstore libs_chroma_fails
           disk_with_corpus (Exception "vector store is locked")).
  reflexivity.
Defined.

(** X18: a failure to build the BM25 index is swallowed: the run returns
    normally with the vector store built and no BM25 pickle, and every
    query after it raises [FileNotFoundError] before anything is called. *)
Theorem bm25_failure_breaks_later_queries {score : Type}
        (score_lt : score -> score -> bool)
        (libs : IngestLibs) (disk : Disk) (e : PyException)
        (rt : @Runtime score) (q : string) (llm : ChatBackend)
        (ce : @CrossEncoder score) (vs : Retriever) :
  let chunks := split_documents libs (load_documents libs (corpus disk)) in
  load_documents libs (corpus disk) <> [] ->
  chunks <> [] ->
  HuggingFaceEmbeddings_init libs = inr tt ->
  Chroma_from_documents libs chunks = inr tt ->
  BM25Retriever_from_texts libs (map page_content chunks)
                           (map metadata chunks) = inl e ->
  HuggingFaceEmbeddings_load rt = inr tt ->
  CrossEncoder_load rt = inr ce ->
  Chroma_load rt (Some chunks) = inr vs ->
  run_ingestion libs disk = (inr tt, mkDisk (corpus disk) (Some chunks) None) /\
  run_rag_pipeline score_lt rt (snd (run_ingestion libs disk)) q llm =
  (inl (Raise LoadBM25 (FileNotFoundError BM25_INDEX_PATH)), []).
Proof.
  intros chunks Hdocs Hchunks Hemb Hvs Hbm Hrt Hce Hload. subst chunks.
  assert (run_ingestion libs disk =
          (inr tt,
           mkDisk (corpus disk)
             (Some (split_documents libs (load_documents libs (corpus disk))))
             None)) as Hrun.
  { destruct (run_ingestion_cases libs disk)
      as [[_ [H | [H | [e' H]]]] | [(e' & _ & _ & _ & _ & H) | [[H _] | [H _]]]];
      try congruence.
    exfalso. unfold run_ingestion in H. rewrite clear_indexes_eq in H.
    simpl corpus in H.
    destruct (load_documents libs (corpus disk)) as [|d docs]; [congruence|].
    destruct (split_documents libs (d :: docs)) as [|c rest]; [congruence|].
    rewrite Hemb in H. unfold create_vectorstore, create_bm25_index in H.
    rewrite Hvs, Hbm in H. discriminate H. }
  split; [exact Hrun|]. rewrite Hrun.
  now apply (missing_bm25_pickle_raises_FileNotFoundError score_lt rt _ q llm ce vs).
Qed.

Lemma bm25_failure_breaks_later_queries_witness :
  run_ingestion libs_bm25_fails disk_with_corpus =
    (inr tt,
     mkDisk (corpus disk_with_corpus)
       (Some (split_documents libs_bm25_fails
                (load_documents libs_bm25_fails (corpus disk_with_corpus))))
       None) /\
  run_rag_pipeline Z.ltb sample_runtime
    (snd (run_ingestion libs_bm25_fails disk_with_corpus)) "q" sample_llm =
  (inl (Raise LoadBM25 (FileNotFoundError BM25_INDEX_PATH)), []).
Proof.
  apply (bm25_failure_breaks_later_queries Z.ltb libs_bm25_fails
           disk_with_corpus (Exception "no tokens") sample_runtime "q"
           sample_llm (fixed_encoder [])
           (fixed_retriever
              (split_documents libs_bm25_fails
                 (load_documents libs_bm25_fails (corpus disk_with_corpus)))));
    (reflexivity || discriminate).
Defined.

(* ------------------------------------------------------------------ *)
(** * Properties of the HTTP handlers *)

(** X19: [get_llm] either raises an [HTTPException] with status 400 or
    returns a client whose key is not empty; it returns a client exactly
    when the choice is "groq" and the request or the environment carries a
    non-empty key, or the choice is "openai" and the request carries one. *)
Theorem get_llm_client_or_400 (env : option string) (choice : string)
        (key : option string) :
  match get_llm env choice key with
  | inl e => status_code e = 400
  | inr llm => llm_key llm <> ""
  end /\
  ((exists llm, get_llm env choice key = inr llm) <->
   (choice = "groq" /\ (truthy key = true \/ truthy env = true)) \/
   (choice = "openai" /\ truthy key = true)).
Proof.
  unfold get_llm, or_.
  destruct (String.eqb choice "groq") eqn:Eg.
  - apply String.eqb_eq in Eg; subst choice.
    destruct key as [[|c s]|], env as [[|c' s']|]; simpl;
      (split; [try reflexivity; discriminate|]);
      (split; [intros [llm H]; try discriminate; auto
              | intros [[_ [H | H]] | [H _]]; try discriminate; eauto]).
  - destruct (String.eqb choice "openai") eqn:Eo.
    + apply String.eqb_eq in Eo; subst choice.
      destruct key as [[|c s]|]; simpl;
        (split; [try reflexivity; discriminate|]);
        (split; [intros [llm H]; try discriminate; auto
                | intros [[H _] | [_ H]]; try discriminate; eauto]).
    + split; [reflexivity|]. split.
      * intros [llm H]; discriminate.
      * intros [[-> _] | [-> _]]; discriminate.
Qed.

(** X20: for "groq" a non-empty key of the request wins over the
    environment, which is used only when the request has none; for
    "openai" the environment plays no part. *)
Theorem get_llm_key_source (env env' : option string) (key : option string) :
  match get_llm env "groq" key with
  | inr llm => or_ key env = Some (llm_key llm) /\
               llm = ChatGroq "llama-3.1-8b-instant" 0 (llm_key llm)
  | inl _ => truthy (or_ key env) = false
  end /\
  get_llm env "openai" key = get_llm env' "openai" key.
Proof.
  split; [|reflexivity].
  unfold get_llm, or_. simpl.
  destruct key as [[|c s]|], env as [[|c' s']|]; simpl; auto.
Qed.

Lemma run_rag_pipeline_without_bm25 {score : Type}
      (score_lt : score -> score -> bool) (rt : @Runtime score) (disk : Disk)
      (q : string) (llm : ChatBackend) :
  bm25_index disk = None ->
  exists stage e,
    run_rag_pipeline score_lt rt disk q llm = (inl (Raise stage e), []).
Proof.
  intros Hnone. unfold run_rag_pipeline, load_bm25. rewrite Hnone.
  destruct (HuggingFaceEmbeddings_load rt) as [e | u]; simpl; [eauto|].
  destruct (CrossEncoder_load rt) as [e | ce]; simpl; [eauto|].
  destruct (Chroma_load rt (vectorstore disk)) as [e | vs]; simpl; eauto.
Qed.

Section ServerFacts.
Context {score : Type}.
Variable score_lt : score -> score -> bool.

(** X21: whatever goes wrong in [/chat], the client sees status 500: the
    handler turns every exception, also the 400 of [get_llm], into an
    internal server error. *)
Theorem chat_endpoint_errors_are_500 (srv : @Server score) (disk : Disk)
        (request : Api.ChatRequest) (e : HTTPException) :
  fst (chat_endpoint score_lt srv disk request) = inl e ->
  status_code e = 500.
Proof.
  unfold chat_endpoint.
  destruct (get_llm _ _ _) as [e400 | llm]; simpl.
  - now intros [= <-].
  - destruct (run_rag_pipeline _ _ _ _ _) as [[[stage e'] | answer] tr]; simpl.
    + now intros [= <-].
    + discriminate.
Qed.

(** X22: a request whose choice is neither "groq" nor "openai" is answered
    with status 500 carrying the text of the "Invalid LLM choice." error,
    and nothing is loaded or called for it. *)
Theorem chat_endpoint_invalid_choice (srv : @Server score) (disk : Disk)
        (request : Api.ChatRequest) :
  Api.llm_choice request <> "groq" ->
  Api.llm_choice request <> "openai" ->
  chat_endpoint score_lt srv disk request =
  (inl (mkHTTPException 500
          ("Internal Server Error: " ++
           str_HTTPException srv (mkHTTPException 400 "Invalid LLM choice."))),
   []).
Proof.
  intros Hg Ho. unfold chat_endpoint, get_llm.
  apply String.eqb_neq in Hg, Ho. now rewrite Hg, Ho.
Qed.

(** X23: an answer returned by [/chat] is what the chat client configured
    by [get_llm] completed for the prompt assembled from the request's
    query and the window that the re-ranker selected from the pool that
    the hybrid search built out of the two loaded retrievers; that call
    of the client is the last call made. *)
Theorem chat_endpoint_answer_from_backend (srv : @Server score) (disk : Disk)
        (request : Api.ChatRequest) (response : Api.ChatResponse)
        (tr : list Event) :
  chat_endpoint score_lt srv disk request = (inr response, tr) ->
  let q := Api.query request in
  exists llm ce vs bm f pool window,
    get_llm (environ_GROQ_API_KEY srv) (Api.llm_choice request)
            (Api.api_key request) = inr llm /\
    CrossEncoder_load (runtime srv) = inr ce /\
    Chroma_load (runtime srv) (vectorstore disk) = inr vs /\
    bm25_index disk = Some f /\
    pickle_load (runtime srv) f = inr bm /\
    outcome (_hybrid_search q (set_k 5 vs) (set_k 5 bm)) = inr pool /\
    outcome (_rerank_documents score_lt (mkQueryAndDocs q pool) ce) =
      inr window /\
    complete (chat_backend srv llm) (RAG_PROMPT (_format_docs window) q) =
      inr (Api.answer response) /\
    tr = [RetrieverInvoke Dense q; RetrieverInvoke Sparse q] ++
         match pool with
         | [] => []
         | _ :: _ => [CrossEncoderPredict (query_pairs q pool)]
         end ++
         [LLMInvoke (RAG_PROMPT (_format_docs window) q)].
Proof.
  intros Hchat q. unfold chat_endpoint in Hchat.
  destruct (get_llm _ _ _) as [e400 | llm]; [discriminate|].
  destruct (run_rag_pipeline score_lt (runtime srv) disk (Api.query request)
              (chat_backend srv llm)) as [[[stage e'] | answer] tr'] eqn:Hrun;
    [discriminate|].
  injection Hchat as <- <-.
  destruct (run_rag_pipeline_answer score_lt _ _ _ _ _ _ Hrun)
    as (ce & vs & bm & f & pool & window & Hce & Hvs & Hf & Hbm & Hpool &
        Hwin & Htr & Hans).
  exists llm, ce, vs, bm, f, pool, window. simpl. repeat split; assumption.
Qed.
End ServerFacts.

Lemma chat_endpoint_errors_are_500_witness :
  fst (chat_endpoint Z.ltb sample_server disk_built
         (Api.mkChatRequest "capital of France?" "openai" None)) =
    inl (mkHTTPException 500
           ("Internal Server Error: " ++ "OpenAI API key is required.")) /\
  status_code
    (mkHTTPException 500
       ("Internal Server Error: " ++ "OpenAI API key is required.")) = 500.
Proof.
  split; [reflexivity|].
  apply (chat_endpoint_errors_are_500 Z.ltb sample_server disk_built
           (Api.mkChatRequest "capital of France?" "openai" None)).
  reflexivity.
Defined.

Lemma chat_endpoint_invalid_choice_witness :
  chat_endpoint Z.ltb sample_server disk_built
    (Api.mkChatRequest "capital of France?" "llama" (Some "key")) =
  (inl (mkHTTPException 500
          ("Internal Server Error: " ++
           str_HTTPException sample_server
             (mkHTTPException 400 "Invalid LLM choice."))),
   []).
Proof.
  apply (chat_endpoint_invalid_choice Z.ltb sample_server disk_built
           (Api.mkChatRequest "capital of France?" "llama" (Some "key")));
    discriminate.
Defined.

Lemma chat_endpoint_answer_from_backend_witness :
  let q := "capital of France?" in
  exists llm ce vs bm f pool window,
    get_llm (environ_GROQ_API_KEY sample_server_scored) "groq" (Some "key") =
      inr llm /\
    CrossEncoder_load (runtime sample_server_scored) = inr ce /\
    Chroma_load (runtime sample_server_scored) (vectorstore disk_built) =
      inr vs /\
    bm25_index disk_built = Some f /\
    pickle_load (runtime sample_server_scored) f = inr bm /\
    outcome (_hybrid_search q (set_k 5 vs) (set_k 5 bm)) = inr pool /\
    outcome (_rerank_documents Z.ltb (mkQueryAndDocs q pool) ce) = inr window /\
    complete (chat_backend sample_server_scored llm)
             (RAG_PROMPT (_format_docs window) q) =
      inr "I don't know." /\
    [RetrieverInvoke Dense q; RetrieverInvoke Sparse q;
     CrossEncoderPredict
       [(q, "Paris is the capital of France");
        (q, "The Eiffel Tower is in Paris")];
     LLMInvoke
       (RAG_PROMPT
          ("The Eiffel Tower is in Paris" ++ newline ++ newline ++
           "Paris is the capital of France") q)] =
    [RetrieverInvoke Dense q; RetrieverInvoke Sparse q] ++
    match pool with
    | [] => []
    | _ :: _ => [CrossEncoderPredict (query_pairs q pool)]
    end ++
    [LLMInvoke (RAG_PROMPT (_format_docs window) q)].
Proof.
  apply (chat_endpoint_answer_from_backend Z.ltb sample_server_scored disk_built
           (Api.mkChatRequest "capital of France?" "groq" (Some "key"))
           (Api.mkChatResponse "I don't know.")).
  reflexivity.
Defined.


(** X25: with no loadable document in the corpus, [/ingest] still reports
    that ingestion is complete, and after it every [/chat] request fails
    with status 500 before any retriever or model is called. *)
Theorem ingest_without_documents_then_chat_fails {score : Type}
        (score_lt : score -> score -> bool)
        (libs : IngestLibs) (str_exc : PyException -> string)
        (disk : Disk) (main_py : string)
        (srv : @Server score) (request : Api.ChatRequest) :
  load_documents libs (corpus disk) = [] ->
  fst (ingest_documents libs str_exc (disk, main_py)) =
    inr "Ingestion complete. Server is restarting with new data." /\
  exists e,
    chat_endpoint score_lt srv
      (fst (snd (ingest_documents libs str_exc (disk, main_py)))) request =
      (inl e, []) /\
    status_code e = 500.
Proof.
  intros Hdocs. unfold ingest_documents, run_ingestion.
  rewrite clear_indexes_eq. simpl corpus. rewrite Hdocs. simpl.
  split; [reflexivity|]. unfold chat_endpoint.
  destruct (get_llm _ _ _) as [e400 | llm]; [eauto|].
  destruct (run_rag_pipeline_without_bm25 score_lt (runtime srv)
              (mkDisk (corpus disk) (Some []) None)
              (Api.query request) (chat_backend srv llm) eq_refl)
    as (stage & e & ->).
  eauto.
Qed.

Lemma ingest_without_documents_then_chat_fails_witness :
  fst (ingest_documents sample_libs (str_PyException sample_server)
         (disk_built, "app = FastAPI()")) =
    inr "Ingestion complete. Server is restarting with new data." /\
  exists e,
    chat_endpoint Z.ltb sample_server
      (fst (snd (ingest_documents sample_libs (str_PyException sample_server)
                   (disk_built, "app = FastAPI()"))))
      (Api.mkChatRequest "capital of France?" "groq" (Some "key")) =
      (inl e, []) /\
    status_code e = 500.
Proof.
  apply (ingest_without_documents_then_chat_fails Z.ltb sample_libs
           (str_PyException sample_server) disk_built "app = FastAPI()"
           sample_server
           (Api.mkChatRequest "capital of France?" "groq" (Some "key"))).
  reflexivity.
Defined.

(* ------------------------------------------------------------------ *)
(** * Index availability *)

(** C7 as stated fails: with no vector-store directory at all and a BM25
    pickle in place, a vector-store constructor that opens the missing
    directory as an empty store lets the run return an answer built from
    the sparse results alone. *)
Lemma unbuilt_vectorstore_counterexample :
  ~ (forall (rt : @Runtime Z) (disk : Disk) (q : string) (llm : ChatBackend)
            (ce : @CrossEncoder Z),
        HuggingFaceEmbeddings_load rt = inr tt ->
        CrossEncoder_load rt = inr ce ->
        index_not_built disk ->
        exists r, outcome (run_rag_pipeline Z.ltb rt disk q llm) = inl r).
Proof.
  intros H.
  destruct (H sample_runtime_scored disk_sparse_only "capital of France?"
              sample_llm (fixed_encoder [3; 9]%Z) eq_refl eq_refl
              (or_introl eq_refl)) as [r Hr].
  vm_compute in Hr. discriminate Hr.
Qed.

(** The run of the counterexample: the dense retriever returns nothing, and
    the prompt is assembled from the two sparse chunks. *)
Example unbuilt_vectorstore_run :
  run_rag_pipeline Z.ltb sample_runtime_scored disk_sparse_only
                   "capital of France?" sample_llm =
  (inr "I don't know.",
   [RetrieverInvoke Dense "capital of France?";
    RetrieverInvoke Sparse "capital of France?";
    CrossEncoderPredict
      [("capital of France?", "Paris is the capital of France");
       ("capital of France?", "The Eiffel Tower is in Paris")];
    LLMInvoke
      (RAG_PROMPT
         ("The Eiffel Tower is in Paris" ++ newline ++ newline ++
          "Paris is the capital of France")
         "capital of France?")]).
Proof. reflexivity. Qed.

Lemma index_load_failure_ends_run_witness :
  (forall e,
      Chroma_load sample_runtime (vectorstore disk_cleared) = inl e ->
      run_rag_pipeline Z.ltb sample_runtime disk_cleared
                       "capital of France?" sample_llm =
      (inl (Raise LoadVectorstore e), [])) /\
  (forall vs,
      Chroma_load sample_runtime (vectorstore disk_cleared) = inr vs ->
      bm25_index disk_cleared = None ->
      run_rag_pipeline Z.ltb sample_runtime disk_cleared
                       "capital of France?" sample_llm =
      (inl (Raise LoadBM25 (FileNotFoundError BM25_INDEX_PATH)), [])) /\
  (forall vs f e,
      Chroma_load sample_runtime (vectorstore disk_cleared) = inr vs ->
      bm25_index disk_cleared = Some f ->
      pickle_load sample_runtime f = inl e ->
      run_rag_pipeline Z.ltb sample_runtime disk_cleared
                       "capital of France?" sample_llm =
      (inl (Raise LoadBM25 e), [])) /\
  (forall vs f bm,
      Chroma_load sample_runtime (vectorstore disk_cleared) = inr vs ->
      bm25_index disk_cleared = Some f ->
      pickle_load sample_runtime f = inr bm ->
      exists rest,
        trace (run_rag_pipeline Z.ltb sample_runtime disk_cleared
                 "capital of France?" sample_llm) =
        RetrieverInvoke Dense "capital of France?" :: rest).
Proof.
  apply (index_load_failure_ends_run Z.ltb sample_runtime disk_cleared
           "capital of France?" sample_llm (fixed_encoder []));
    reflexivity.
Defined.

Lemma run_rag_pipeline_answer_provenance_witness :
  exists ce vs bm f pool window,
    CrossEncoder_load sample_runtime_scored = inr ce /\
    Chroma_load sample_runtime_scored (vectorstore disk_built) = inr vs /\
    bm25_index disk_built = Some f /\
    pickle_load sample_runtime_scored f = inr bm /\
    outcome (_hybrid_search "capital of France?" (set_k 5 vs) (set_k 5 bm)) =
      inr pool /\
    outcome (_rerank_documents Z.ltb
               (mkQueryAndDocs "capital of France?" pool) ce) = inr window /\
    trace (run_rag_pipeline Z.ltb sample_runtime_scored disk_built
             "capital of France?" sample_llm) =
      [RetrieverInvoke Dense "capital of France?";
       RetrieverInvoke Sparse "capital of France?"] ++
      match pool with
      | [] => []
      | _ :: _ => [CrossEncoderPredict (query_pairs "capital of France?" pool)]
      end ++
      [LLMInvoke (RAG_PROMPT (_format_docs window) "capital of France?")] /\
    complete sample_llm (RAG_PROMPT (_format_docs window) "capital of France?") =
      inr "I don't know.".
Proof.
  apply (run_rag_pipeline_answer_provenance Z.ltb sample_runtime_scored
           disk_built "capital of France?" sample_llm "I don't know.").
  reflexivity.
Defined.
